(** * PulseWatch: the monitor worker (services/monitor/worker.py)

    A shallow embedding of the polling worker: the status specification
    evaluator [in_expected], the probe coroutine [check_once] and the
    scheduling loop [runner], with the properties of the engine stated over
    them.

    Conventions of the model.
    - A Python [str] is a [string] whose characters are the code points
      U+0000..U+00FF (the Latin-1 range); [is_space], [is_digit] and
      [is_decimal] are the classifications [str.strip], [str.isdigit] and
      [int] use on that range.
    - A Python [int] is a [Z].  [int(s)] refuses a literal of more than
      [int_max_str_digits] digits, the interpreter's default of 4300.
    - An exception is a value of [exn]; a call that may raise returns a
      [result].
    - Wall-clock readings ([time.perf_counter], the [latency_ms] field of
      the report) are floating point and are left out. *)

From Stdlib Require Import Bool Ascii String List ZArith NArith QArith Lia.
From Stdlib Require Import Permutation Sorted.
From Stdlib Require Import DecimalString.
Import ListNotations.

Local Open Scope string_scope.
Local Open Scope Z_scope.

(** ** Exceptions and fallible results *)

(** [ValueError] is what [int] and a failed unpacking raise; [HTTPError]
    stands for any exception raised by a call on the HTTP client: a
    transport failure, a timeout, an error status rejected by
    [raise_for_status], a body that does not decode.  Each carries its
    description, the text [str(e)] returns, which may be empty. *)
Inductive exn : Type :=
| ValueError (msg : string)
| HTTPError (msg : string).

(** [str(e)] *)
Definition str_exn (e : exn) : string :=
  match e with
  | ValueError msg => msg
  | HTTPError msg => msg
  end.

Inductive result (A : Type) : Type :=
| Ok (a : A)
| Raise (e : exn).

Arguments Ok {A} a.
Arguments Raise {A} e.

Definition bind {A B : Type} (r : result A) (k : A -> result B) : result B :=
  match r with
  | Ok a => k a
  | Raise e => Raise e
  end.

Notation "x <- r ;; k" := (bind r (fun x => k))
  (at level 61, r at next level, right associativity).

(** ** Python string primitives on the Latin-1 range *)

Module PyStr.

Definition code (c : ascii) : N := N_of_ascii c.

(** Characters removed by [str.strip()]: U+0009..U+000D, U+001C..U+0020,
    U+0085 and U+00A0. *)
Definition is_space (c : ascii) : bool :=
  let n := code c in
  ((9 <=? n) && (n <=? 13) || (28 <=? n) && (n <=? 32)
   || (n =? 133) || (n =? 160))%N.

(** The ASCII digits, the only characters of the range [int] converts. *)
Definition is_decimal (c : ascii) : bool :=
  let n := code c in ((48 <=? n) && (n <=? 57))%N.

(** Characters accepted by [str.isdigit()]: the ASCII digits and the
    superscript digits U+00B2, U+00B3 and U+00B9. *)
Definition is_digit (c : ascii) : bool :=
  let n := code c in
  (is_decimal c || (n =? 178) || (n =? 179) || (n =? 185))%N.

Fixpoint all (f : ascii -> bool) (s : string) : bool :=
  match s with
  | EmptyString => true
  | String c s' => f c && all f s'
  end.

Definition nonempty (s : string) : bool :=
  match s with
  | EmptyString => false
  | String _ _ => true
  end.

(** [s.isdigit()]: at least one character and all of them digits. *)
Definition isdigit (s : string) : bool := nonempty s && all is_digit s.

(** [c in s] for a one-character [c]. *)
Fixpoint contains (c : ascii) (s : string) : bool :=
  match s with
  | EmptyString => false
  | String d s' => Ascii.eqb d c || contains c s'
  end.

Fixpoint lstrip (s : string) : string :=
  match s with
  | EmptyString => EmptyString
  | String c s' => if is_space c then lstrip s' else s
  end.

Fixpoint rstrip (s : string) : string :=
  match s with
  | EmptyString => EmptyString
  | String c s' =>
      match rstrip s' with
      | EmptyString => if is_space c then EmptyString else String c EmptyString
      | r => String c r
      end
  end.

(** [s.strip()] *)
Definition strip (s : string) : string := rstrip (lstrip s).

(** [s.split(sep)] for a one-character [sep]: never an empty list. *)
Fixpoint split (sep : ascii) (s : string) : list string :=
  match s with
  | EmptyString => [EmptyString]
  | String c s' =>
      if Ascii.eqb c sep then EmptyString :: split sep s'
      else match split sep s' with
           | p :: ps => String c p :: ps
           | [] => [String c EmptyString]
           end
  end.

(** [s.split(sep, 1)]: cut at the first [sep], one piece when there is
    none. *)
Fixpoint split1 (sep : ascii) (s : string) : list string :=
  match s with
  | EmptyString => [EmptyString]
  | String c s' =>
      if Ascii.eqb c sep then [EmptyString; s']
      else match split1 sep s' with
           | p :: ps => String c p :: ps
           | [] => [String c EmptyString]
           end
  end.

(** [s[:n]] *)
Fixpoint take (n : nat) (s : string) : string :=
  match n, s with
  | S n', String c s' => String c (take n' s')
  | _, _ => EmptyString
  end.

Definition digit_value (c : ascii) : Z := Z.of_N (code c) - 48.

(** Value of a string of ASCII digits, most significant first. *)
Fixpoint decimal_value (acc : Z) (s : string) : Z :=
  match s with
  | EmptyString => acc
  | String c s' => decimal_value (10 * acc + digit_value c) s'
  end.

Definition isdecimal (s : string) : bool := nonempty s && all is_decimal s.

(** The decimal digits at the head of [s], which [int] counts before it
    converts them. *)
Fixpoint leading_decimals (s : string) : nat :=
  match s with
  | EmptyString => O
  | String c s' => if is_decimal c then S (leading_decimals s') else O
  end.

(** [sys.get_int_max_str_digits()], left at its default. *)
Definition int_max_str_digits : nat := 4300.

(** [str(n)] for a length. *)
Definition str_nat (n : nat) : string :=
  NilZero.string_of_uint (Nat.to_uint n).

(** [repr(s)] for a string of digit characters: the string between single
    quotes. *)
Definition repr (s : string) : string := "'" ++ s ++ "'".

Definition exceeds_limit (digits : nat) : string :=
  "Exceeds the limit (4300 digits) for integer string conversion: value has "
  ++ str_nat digits
  ++ " digits; use sys.set_int_max_str_digits() to increase the limit".

(** [int(s)] on the strings the worker passes to it, those accepted by
    [isdigit].  The digits at the head are counted first: more than the cap
    is a [ValueError].  Otherwise every character must be an ASCII digit:
    then the value, and if not the [ValueError] whose text quotes the first
    200 characters of [repr(s)]. *)
Definition int (s : string) : result Z :=
  if (int_max_str_digits <? leading_decimals s)%nat then
    Raise (ValueError (exceeds_limit (leading_decimals s)))
  else if isdecimal s then Ok (decimal_value 0 s)
  else Raise (ValueError
                ("invalid literal for int() with base 10: "
                 ++ take 200 (repr s))).

End PyStr.

(** ** The status specification evaluator *)

(** The body of the [for p in parts] loop of [in_expected]; a token that
    matches returns at once, any other one falls through to the next. *)
Fixpoint in_expected_loop (status : Z) (parts : list string) : result bool :=
  match parts with
  | [] => Ok false
  | p :: rest =>
      if PyStr.contains "-" p then
        match PyStr.split1 "-" p with
        | [a; b] =>
            if PyStr.isdigit a && PyStr.isdigit b then
              lo <- PyStr.int a ;;
              if lo <=? status then
                hi <- PyStr.int b ;;
                if status <=? hi then Ok true
                else in_expected_loop status rest
              else in_expected_loop status rest
            else in_expected_loop status rest
        | _ => Raise (ValueError "not enough values to unpack (expected 2, got 1)")
        end
      else if PyStr.isdigit p then
        v <- PyStr.int p ;;
        if v =? status then Ok true else in_expected_loop status rest
      else in_expected_loop status rest
  end.

Definition in_expected (status : Z) (spec : string) : result bool :=
  let parts := map PyStr.strip (PyStr.split "," spec) in
  in_expected_loop status parts.

(** ** Monitors, checks and the probe coroutine *)

(** One element of the list fetched from the store.  [check_once] indexes
    [id] and [url] directly and reads the other fields with [dict.get] and
    a default, so those are optional here: [None] is a missing key. *)
Record monitor : Type := {
  mon_id : Z;
  mon_url : string;
  mon_method : option string;
  mon_timeout_ms : option Z;
  mon_expected_statuses : option string;
  mon_is_enabled : option bool
}.

(** [d.get(key, default)] on an optional field. *)
Definition get {A : Type} (field : option A) (default : A) : A :=
  match field with
  | Some v => v
  | None => default
  end.

(** Arguments of [client.request].  [req_method] is the monitor's method
    before [.upper()]: case mapping leaves the Latin-1 range and nothing
    below depends on the verb. *)
Record request : Type := {
  req_method : string;
  req_url : string;
  req_timeout : Q
}.

(** The JSON body posted to [/checks], without [latency_ms]. *)
Record check : Type := {
  monitor_id : Z;
  status_code : option Z;
  ok : bool;
  error_reason : option string
}.

(** A coroutine of the worker that awaits the HTTP client: it has returned,
    has raised, or is suspended on [client.request] or on the [client.post]
    of a check, with the continuation that receives the awaited outcome (the
    response's [status_code], or the exception raised). *)
Inductive task : Type :=
| TReturn
| TRaise (e : exn)
| TRequest (rq : request) (k : result Z -> task)
| TPost (c : check) (k : result unit -> task).

Definition check_once (mon : monitor) : task :=
  let url := mon_url mon in
  let timeout := Qdiv (inject_Z (get (mon_timeout_ms mon) 5000)) (inject_Z 1000) in
  let method := get (mon_method mon) "GET" in
  TRequest {| req_method := method; req_url := url; req_timeout := timeout |}
    (fun resp =>
       let '(status_code, ok, err) :=
         match resp with
         | Ok resp_status_code =>
             match in_expected resp_status_code
                     (get (mon_expected_statuses mon) "200-399") with
             | Ok ok => (Some resp_status_code, ok, None)
             | Raise e =>
                 (Some resp_status_code, false,
                  Some (PyStr.take 300 (str_exn e)))
             end
         | Raise e => (None, false, Some (PyStr.take 300 (str_exn e)))
         end in
       TPost {| monitor_id := mon_id mon;
                status_code := status_code;
                ok := ok;
                error_reason := err |}
         (fun posted =>
            match posted with
            | Ok _ => TReturn
            | Raise e => TRaise e
            end)).

(** ** The scheduling loop *)

(** The runner coroutine: suspended on the fetch of the monitor list, on
    [asyncio.gather] of the probes, on [asyncio.sleep], or about to print.
    The three statements [client.get], [raise_for_status] and [json] are one
    step [RGet]: its outcome is the decoded list, or the exception any of
    the three raised. *)
Inductive rcoro : Type :=
| RReturn
| RGet (k : result (list monitor) -> rcoro)
| RGather (tasks : list task) (k : result unit -> rcoro)
| RPrint (msg : string) (k : rcoro)
| RSleep (secs : Z) (k : rcoro).

(** [m.get("is_enabled", True)] as the condition of the comprehension. *)
Definition enabled (m : monitor) : bool := get (mon_is_enabled m) true.

(** What follows the [try] block: the [except] clause when it raised, then
    the sleep that ends the iteration. *)
Definition after_try (r : result unit) : rcoro :=
  match r with
  | Ok _ => RSleep 60 RReturn
  | Raise e => RPrint ("worker loop error: " ++ str_exn e) (RSleep 60 RReturn)
  end.

(** One iteration of [while True] in [runner].  The loop itself is in
    [step] below: a runner that reaches the end of the body starts it
    again, so [runner] never returns. *)
Definition runner_body : rcoro :=
  RGet (fun r =>
    match r with
    | Ok monitors =>
        let tasks := map check_once (filter enabled monitors) in
        match tasks with
        | [] => after_try (Ok tt)
        | _ :: _ => RGather tasks after_try
        end
    | Raise e => after_try (Raise e)
    end).

(** ** The event loop *)

(** The outcome the HTTP client delivers to a suspended probe. *)
Inductive io : Type :=
| IoResponse (r : result Z)
| IoPosted (r : result unit).

Inductive event : Type :=
| EvGet (r : result (list monitor))
| EvPrint (msg : string)
| EvSleep (secs : Z)
| EvRequest (rq : request) (r : result Z)
| EvPost (c : check) (r : result unit).

(** Resuming a suspended probe with the outcome it awaits. *)
Definition resume (t : task) (o : io) : option (event * task) :=
  match t, o with
  | TRequest rq k, IoResponse r => Some (EvRequest rq r, k r)
  | TPost c k, IoPosted r => Some (EvPost c r, k r)
  | _, _ => None
  end.

(** A probe driven by a sequence of outcomes, with the events it produced. *)
Fixpoint task_run (t : task) (os : list io) : option (list event * task) :=
  match os with
  | [] => Some ([], t)
  | o :: os' =>
      match resume t o with
      | Some (ev, t') =>
          match task_run t' os' with
          | Some (evs, t'') => Some (ev :: evs, t'')
          | None => None
          end
      | None => None
      end
  end.

Definition is_returned (t : task) : bool :=
  match t with
  | TReturn => true
  | _ => false
  end.

Definition is_raised (t : task) : bool :=
  match t with
  | TRaise _ => true
  | _ => false
  end.

Definition is_done (t : task) : bool := is_returned t || is_raised t.

(** The runner is either running or suspended on a gather whose children
    are the probes of the current iteration. *)
Inductive runner_status : Type :=
| Running (c : rcoro)
| Joining (k : result unit -> rcoro).

Record loop : Type := {
  lp_runner : runner_status;
  lp_tasks : list task;
  lp_orphans : list task;
  lp_trace : list event
}.

(** What the event loop does next: deliver the fetched list, let the
    runner take its next step, complete the gather, or deliver an outcome
    to a probe of this iteration or of an earlier one. *)
Inductive move : Type :=
| MGet (r : result (list monitor))
| MRunner
| MJoin
| MJoinRaise (i : nat)
| MTask (i : nat) (o : io)
| MOrphan (i : nat) (o : io).

Fixpoint update {A : Type} (l : list A) (i : nat) (x : A) : list A :=
  match l, i with
  | [], _ => []
  | _ :: l', O => x :: l'
  | y :: l', S i' => y :: update l' i' x
  end.

Definition resume_at (ts : list task) (i : nat) (o : io)
  : option (event * list task) :=
  match nth_error ts i with
  | Some t =>
      match resume t o with
      | Some (ev, t') => Some (ev, update ts i t')
      | None => None
      end
  | None => None
  end.

(** [asyncio.gather] with [return_exceptions] left at [False]: the awaiting
    runner resumes normally once every child has returned ([MJoin]), and
    resumes with the exception of a child that raised as soon as there is
    one ([MJoinRaise]); the other children are not cancelled.  When an
    iteration ends its probes stay in the loop as [lp_orphans]. *)
Definition step (mv : move) (l : loop) : option loop :=
  match mv, lp_runner l with
  | MGet r, Running (RGet k) =>
      Some {| lp_runner := Running (k r);
              lp_tasks := lp_tasks l;
              lp_orphans := lp_orphans l;
              lp_trace := lp_trace l ++ [EvGet r] |}
  | MRunner, Running (RPrint msg k) =>
      Some {| lp_runner := Running k;
              lp_tasks := lp_tasks l;
              lp_orphans := lp_orphans l;
              lp_trace := lp_trace l ++ [EvPrint msg] |}
  | MRunner, Running (RSleep secs k) =>
      Some {| lp_runner := Running k;
              lp_tasks := lp_tasks l;
              lp_orphans := lp_orphans l;
              lp_trace := lp_trace l ++ [EvSleep secs] |}
  | MRunner, Running (RGather ts k) =>
      Some {| lp_runner := Joining k;
              lp_tasks := ts;
              lp_orphans := lp_orphans l ++ lp_tasks l;
              lp_trace := lp_trace l |}
  | MRunner, Running RReturn =>
      Some {| lp_runner := Running runner_body;
              lp_tasks := [];
              lp_orphans := lp_orphans l ++ lp_tasks l;
              lp_trace := lp_trace l |}
  | MJoin, Joining k =>
      if forallb is_returned (lp_tasks l) then
        Some {| lp_runner := Running (k (Ok tt));
                lp_tasks := lp_tasks l;
                lp_orphans := lp_orphans l;
                lp_trace := lp_trace l |}
      else None
  | MJoinRaise i, Joining k =>
      match nth_error (lp_tasks l) i with
      | Some (TRaise e) =>
          Some {| lp_runner := Running (k (Raise e));
                  lp_tasks := lp_tasks l;
                  lp_orphans := lp_orphans l;
                  lp_trace := lp_trace l |}
      | _ => None
      end
  | MTask i o, _ =>
      match resume_at (lp_tasks l) i o with
      | Some (ev, ts) =>
          Some {| lp_runner := lp_runner l;
                  lp_tasks := ts;
                  lp_orphans := lp_orphans l;
                  lp_trace := lp_trace l ++ [ev] |}
      | None => None
      end
  | MOrphan i o, _ =>
      match resume_at (lp_orphans l) i o with
      | Some (ev, ts) =>
          Some {| lp_runner := lp_runner l;
                  lp_tasks := lp_tasks l;
                  lp_orphans := ts;
                  lp_trace := lp_trace l ++ [ev] |}
      | None => None
      end
  | _, _ => None
  end.

Fixpoint run (mvs : list move) (l : loop) : option loop :=
  match mvs with
  | [] => Some l
  | mv :: mvs' =>
      match step mv l with
      | Some l' => run mvs' l'
      | None => None
      end
  end.

(** [asyncio.run(runner())]: the runner enters its first iteration. *)
Definition start : loop :=
  {| lp_runner := Running runner_body;
     lp_tasks := [];
     lp_orphans := [];
     lp_trace := [] |}.

(** The runner is suspended in [asyncio.sleep]. *)
Definition sleeping (l : loop) : bool :=
  match lp_runner l with
  | Running (RSleep _ _) => true
  | _ => false
  end.

(** The superscript two, U+00B2. *)
Definition sup2 : string := String (ascii_of_N 178) EmptyString.

(** What the loop of [in_expected] does with a list holding the one token
    [a-b], [a] without a dash. *)
Definition range_token (status : Z) (a b : string) : result bool :=
  if PyStr.isdigit a && PyStr.isdigit b then
    lo <- PyStr.int a ;;
    if lo <=? status then
      hi <- PyStr.int b ;;
      if status <=? hi then Ok true else Ok false
    else Ok false
  else Ok false.

(** The evaluator as the specification words it: a token is valid when it
    is a decimal integer, or two decimal integers around a dash; the
    observed status satisfies the first when equal to it and the second
    when within its bounds. *)
Definition token_matches (status : Z) (p : string) : bool :=
  if PyStr.isdecimal p then PyStr.decimal_value 0 p =? status
  else
    match PyStr.split1 "-" p with
    | [a; b] =>
        PyStr.isdecimal a && PyStr.isdecimal b
        && ((PyStr.decimal_value 0 a <=? status)
            && (status <=? PyStr.decimal_value 0 b))
    | _ => false
    end.

Definition tokens (spec : string) : list string :=
  map PyStr.strip (PyStr.split "," spec).

Definition matches (status : Z) (spec : string) : bool :=
  existsb (token_matches status) (tokens spec).

(** Every character [isdigit] accepts is one [int] converts. *)
Definition decimal_digits_only (s : string) : bool :=
  PyStr.all (fun c => implb (PyStr.is_digit c) (PyStr.is_decimal c)) s.

(** [sep.join(parts)] *)
Fixpoint join (sep : string) (parts : list string) : string :=
  match parts with
  | [] => EmptyString
  | [p] => p
  | p :: ps => p ++ sep ++ join sep ps
  end.

(** Every probe has returned, or one of them has raised: the condition on
    which [asyncio.gather] lets the runner go on. *)
Definition settled (ts : list task) : bool :=
  forallb is_returned ts || existsb is_raised ts.

(** Where the runner can be within an iteration, with the probes of the
    iteration at that point. *)
Inductive cycle_inv : runner_status -> list task -> Prop :=
| inv_fetch : cycle_inv (Running runner_body) []
| inv_gather (ts : list task) : cycle_inv (Running (RGather ts after_try)) []
| inv_join (ts : list task) : cycle_inv (Joining after_try) ts
| inv_print (msg : string) (ts : list task) :
    settled ts = true -> cycle_inv (Running (RPrint msg (RSleep 60 RReturn))) ts
| inv_sleep (ts : list task) :
    settled ts = true -> cycle_inv (Running (RSleep 60 RReturn)) ts
| inv_return (ts : list task) : cycle_inv (Running RReturn) ts.

(** [is_enabled] is present and false. *)
Definition disabled (m : monitor) : bool :=
  match mon_is_enabled m with
  | Some false => true
  | _ => false
  end.

(** The continuation of every probe after its post. *)
Definition after_post (posted : result unit) : task :=
  match posted with
  | Ok _ => TReturn
  | Raise e => TRaise e
  end.

(** The check [check_once] hands to the store when its request ends with
    [resp]. *)
Definition check_of (mon : monitor) (resp : result Z) : option check :=
  match resume (check_once mon) (IoResponse resp) with
  | Some (_, TPost c _) => Some c
  | _ => None
  end.

(** A monitor whose expected statuses are the superscript two. *)
Definition sup2_monitor : monitor :=
  {| mon_id := 7;
     mon_url := "http://example.test/health";
     mon_method := Some "GET";
     mon_timeout_ms := Some 5000;
     mon_expected_statuses := Some sup2;
     mon_is_enabled := Some true |}.

(** A monitor with the defaults of the store. *)
Definition plain_monitor (id : Z) : monitor :=
  {| mon_id := id;
     mon_url := "http://example.test/";
     mon_method := Some "GET";
     mon_timeout_ms := Some 5000;
     mon_expected_statuses := Some "200-399";
     mon_is_enabled := Some true |}.

Definition refused : exn := HTTPError "All connection attempts failed".

(** An iteration with one monitor whose probe and report both succeed, up
    to the sleep. *)
Definition quiet_moves : list move :=
  [MGet (Ok [plain_monitor 1]); MRunner;
   MTask 0 (IoResponse (Ok 200)); MTask 0 (IoPosted (Ok tt)); MJoin].

Definition quiet_loop : loop :=
  match run quiet_moves start with
  | Some l => l
  | None => start
  end.

(** An iteration with two monitors: the report of the first probe fails
    while the request of the second is still pending. *)
Definition hasty_moves : list move :=
  [MGet (Ok [plain_monitor 1; plain_monitor 2]); MRunner;
   MTask 0 (IoResponse (Ok 200)); MTask 0 (IoPosted (Raise refused));
   MJoinRaise 0; MRunner].

Definition hasty_loop : loop :=
  match run hasty_moves start with
  | Some l => l
  | None => start
  end.

(** ** Further vocabulary for the evaluator *)

(** Only characters that [str.strip] removes. *)
Definition is_blank (s : string) : bool := PyStr.all PyStr.is_space s.

(** No character that [str.isdigit] accepts. *)
Definition no_digit (s : string) : bool :=
  PyStr.all (fun c => negb (PyStr.is_digit c)) s.

(** The text of the [ValueError] of [int] on the literal [lit]. *)
Definition invalid_literal (lit : string) : string :=
  "invalid literal for int() with base 10: " ++ PyStr.take 200 (PyStr.repr lit).

(** A string of [n] copies of [c]. *)
Fixpoint replicate (n : nat) (c : ascii) : string :=
  match n with
  | O => EmptyString
  | S n' => String c (replicate n' c)
  end.

(** Short enough for [int]. *)
Definition fits_int (s : string) : bool :=
  (String.length s <=? PyStr.int_max_str_digits)%nat.

(** No token is longer than [int] accepts. *)
Definition short_tokens (spec : string) : bool :=
  forallb fits_int (tokens spec).

(** ** Further vocabulary for the loop *)

(** The runner itself has a move: it is not waiting for a probe. *)
Definition runner_can_move (l : loop) : Prop :=
  exists mv l',
    step mv l = Some l' /\
    match mv with
    | MTask _ _ | MOrphan _ _ => False
    | _ => True
    end.

(** Where an iteration stands, as far as the events of the runner tell:
    before its fetch, after it, or after the print of an error. *)
Inductive phase : Type :=
| BeforeFetch
| Fetched
| Printed.

(** The order in which the runner may produce its events; the events of
    the probes may come at any time. *)
Definition phase_step (ph : phase) (ev : event) : option phase :=
  match ev with
  | EvRequest _ _ | EvPost _ _ => Some ph
  | EvGet _ =>
      match ph with
      | BeforeFetch => Some Fetched
      | _ => None
      end
  | EvPrint _ =>
      match ph with
      | Fetched => Some Printed
      | _ => None
      end
  | EvSleep secs =>
      match ph with
      | BeforeFetch => None
      | _ => if secs =? 60 then Some BeforeFetch else None
      end
  end.

Fixpoint phases (ph : phase) (tr : list event) : option phase :=
  match tr with
  | [] => Some ph
  | ev :: tr' =>
      match phase_step ph ev with
      | Some ph' => phases ph' tr'
      | None => None
      end
  end.

(** The phases in which the runner can be in each of its states. *)
Inductive phase_inv : runner_status -> phase -> Prop :=
| ph_fetch : phase_inv (Running runner_body) BeforeFetch
| ph_gather (ts : list task) : phase_inv (Running (RGather ts after_try)) Fetched
| ph_join : phase_inv (Joining after_try) Fetched
| ph_print (msg : string) :
    phase_inv (Running (RPrint msg (RSleep 60 RReturn))) Fetched
| ph_sleep : phase_inv (Running (RSleep 60 RReturn)) Fetched
| ph_sleep_printed : phase_inv (Running (RSleep 60 RReturn)) Printed
| ph_return : phase_inv (Running RReturn) BeforeFetch.

(** [m] was in a list that a fetch of the trace returned, and passes the
    filter of the runner. *)
Definition fetched (tr : list event) (m : monitor) : Prop :=
  exists ms, In (EvGet (Ok ms)) tr /\ In m ms /\ enabled m = true.

(** The states of the probe of [m]. *)
Inductive probe_of (m : monitor) : task -> Prop :=
| probe_request : probe_of m (check_once m)
| probe_post (r : result Z) (c : check) :
    check_of m r = Some c -> probe_of m (TPost c after_post)
| probe_return : probe_of m TReturn
| probe_raise (e : exn) : probe_of m (TRaise e).

Definition owned (tr : list event) (t : task) : Prop :=
  exists m, fetched tr m /\ probe_of m t.

(** A request goes to the URL, and a posted check bears the id, of a
    monitor that was fetched and passes the filter. *)
Definition event_owned (tr : list event) (ev : event) : Prop :=
  match ev with
  | EvRequest rq _ => exists m, fetched tr m /\ req_url rq = mon_url m
  | EvPost c _ => exists m, fetched tr m /\ monitor_id c = mon_id m
  | _ => True
  end.

Definition gather_owned (tr : list event) (rn : runner_status) : Prop :=
  match rn with
  | Running (RGather ts _) => Forall (owned tr) ts
  | _ => True
  end.

Record loop_owned (l : loop) : Prop := {
  lo_cycle : cycle_inv (lp_runner l) (lp_tasks l);
  lo_gather : gather_owned (lp_trace l) (lp_runner l);
  lo_tasks : Forall (owned (lp_trace l)) (lp_tasks l);
  lo_orphans : Forall (owned (lp_trace l)) (lp_orphans l);
  lo_trace : Forall (event_owned (lp_trace l)) (lp_trace l)
}.

(** * The store API (services/api/main.py)

    The tables are lists of rows in the order of insertion, and the two
    sequences that number the rows are counters.  The columns [created_at]
    and [latency_ms] (a timestamp no endpoint reads, a float) are left out;
    the clock reading that [ts] defaults to is an argument.  The endpoints
    that write are modelled on the values that the columns hold: an
    integer outside 32 bits or a text with a NUL character makes the commit
    fail in the database, which is outside the model (see [storable]). *)

(** A row of [monitors]; also what [MonitorOut] serialises. *)
Record Monitor : Type := {
  m_id : Z;
  m_name : string;
  m_url : string;
  m_method : string;
  m_interval_sec : Z;
  m_timeout_ms : Z;
  m_expected_statuses : string;
  m_is_enabled : bool
}.

(** A row of [checks]; also what [CheckOut] serialises. *)
Record CheckRow : Type := {
  c_id : Z;
  c_monitor_id : Z;
  c_ts : Z;
  c_status_code : option Z;
  c_ok : bool;
  c_error_reason : option string
}.

(** The JSON body of [POST /monitors]: [None] is a missing key. *)
Record MonitorBody : Type := {
  b_name : string;
  b_url : string;
  b_method : option string;
  b_interval_sec : option Z;
  b_timeout_ms : option Z;
  b_expected_statuses : option string;
  b_is_enabled : option bool
}.

Record MonitorCreate : Type := {
  mc_name : string;
  mc_url : string;
  mc_method : string;
  mc_interval_sec : Z;
  mc_timeout_ms : Z;
  mc_expected_statuses : string;
  mc_is_enabled : bool
}.

(** The defaults of the model [MonitorCreate]. *)
Definition monitor_create_of (b : MonitorBody) : MonitorCreate :=
  {| mc_name := b_name b;
     mc_url := b_url b;
     mc_method := get (b_method b) "GET";
     mc_interval_sec := get (b_interval_sec b) 60;
     mc_timeout_ms := get (b_timeout_ms b) 5000;
     mc_expected_statuses := get (b_expected_statuses b) "200-399";
     mc_is_enabled := get (b_is_enabled b) true |}.

Record CheckCreate : Type := {
  cc_monitor_id : Z;
  cc_status_code : option Z;
  cc_ok : bool;
  cc_error_reason : option string
}.

Record db : Type := {
  tbl_monitors : list Monitor;
  tbl_checks : list CheckRow;
  seq_monitors : Z;
  seq_checks : Z
}.

Definition empty_db : db :=
  {| tbl_monitors := []; tbl_checks := []; seq_monitors := 0; seq_checks := 0 |}.

(** What an endpoint answers: the value it returns, an [HTTPException], or
    the 422 of a query parameter out of its bounds. *)
Inductive response (A : Type) : Type :=
| Returned (a : A)
| HTTPException (status : Z) (detail : string)
| Unprocessable.

Arguments Returned {A} a.
Arguments HTTPException {A} status detail.
Arguments Unprocessable {A}.

(** [health] *)
Definition health : bool := true.

Definition create_monitor (payload : MonitorCreate) (d : db) : db * Monitor :=
  let m := {| m_id := seq_monitors d + 1;
              m_name := mc_name payload;
              m_url := mc_url payload;
              m_method := mc_method payload;
              m_interval_sec := mc_interval_sec payload;
              m_timeout_ms := mc_timeout_ms payload;
              m_expected_statuses := mc_expected_statuses payload;
              m_is_enabled := mc_is_enabled payload |} in
  ({| tbl_monitors := tbl_monitors d ++ [m];
      tbl_checks := tbl_checks d;
      seq_monitors := seq_monitors d + 1;
      seq_checks := seq_checks d |}, m).

(** [ORDER BY key DESC]; the order of rows with equal keys, which SQL
    leaves open, is the one this insertion gives them and no property
    below depends on it. *)
Fixpoint insert_desc {A : Type} (key : A -> Z) (x : A) (l : list A) : list A :=
  match l with
  | [] => [x]
  | y :: l' =>
      if key y <? key x then x :: l else y :: insert_desc key x l'
  end.

Definition order_by_desc {A : Type} (key : A -> Z) (l : list A) : list A :=
  fold_right (insert_desc key) [] l.

Definition list_monitors (d : db) : list Monitor :=
  order_by_desc m_id (tbl_monitors d).

Definition list_public_monitors (d : db) : list Monitor :=
  filter m_is_enabled (tbl_monitors d).

(** [limit: int = Query(50, ge=1, le=500)] *)
Definition list_checks (monitor_id : Z) (limit : option Z) (d : db)
  : response (list CheckRow) :=
  let limit := get limit 50 in
  if (1 <=? limit) && (limit <=? 500) then
    let rows :=
      firstn (Z.to_nat limit)
        (order_by_desc c_ts
           (filter (fun c => c_monitor_id c =? monitor_id) (tbl_checks d))) in
    Returned rows
  else Unprocessable.

(** [db.query(Monitor).get(id)] *)
Definition query_get (id : Z) (d : db) : option Monitor :=
  find (fun m => m_id m =? id) (tbl_monitors d).

Definition create_check (payload : CheckCreate) (now : Z) (d : db)
  : db * response CheckRow :=
  match query_get (cc_monitor_id payload) d with
  | None => (d, HTTPException 404 "Monitor not found")
  | Some mon =>
      let c := {| c_id := seq_checks d + 1;
                  c_monitor_id := cc_monitor_id payload;
                  c_ts := now;
                  c_status_code := cc_status_code payload;
                  c_ok := cc_ok payload;
                  c_error_reason := cc_error_reason payload |} in
      ({| tbl_monitors := tbl_monitors d;
          tbl_checks := tbl_checks d ++ [c];
          seq_monitors := seq_monitors d;
          seq_checks := seq_checks d + 1 |}, Returned c)
  end.

(** The calls that write to the store. *)
Inductive call : Type :=
| PostMonitor (b : MonitorBody)
| PostCheck (payload : CheckCreate) (now : Z).

Definition serve (d : db) (c : call) : db :=
  match c with
  | PostMonitor b => fst (create_monitor (monitor_create_of b) d)
  | PostCheck payload now => fst (create_check payload now d)
  end.

Definition serve_all (cs : list call) (d : db) : db := fold_left serve cs d.

(** The ids of each table are distinct and were drawn from its sequence,
    and every check names a stored monitor. *)
Record db_ok (d : db) : Prop := {
  ok_monitor_ids : NoDup (map m_id (tbl_monitors d));
  ok_monitor_seq : Forall (fun m => 1 <= m_id m <= seq_monitors d) (tbl_monitors d);
  ok_check_ids : NoDup (map c_id (tbl_checks d));
  ok_check_seq : Forall (fun c => 1 <= c_id c <= seq_checks d) (tbl_checks d);
  ok_foreign_key :
    Forall (fun c => In (c_monitor_id c) (map m_id (tbl_monitors d)))
      (tbl_checks d);
  ok_seqs : 0 <= seq_monitors d /\ 0 <= seq_checks d
}.

(** Descending order of a key. *)
Definition desc {A : Type} (key : A -> Z) (a b : A) : Prop := key b <= key a.

(** ** Between the store and the worker *)

(** The JSON object of a monitor as the worker decodes it. *)
Definition monitor_json (m : Monitor) : monitor :=
  {| mon_id := m_id m;
     mon_url := m_url m;
     mon_method := Some (m_method m);
     mon_timeout_ms := Some (m_timeout_ms m);
     mon_expected_statuses := Some (m_expected_statuses m);
     mon_is_enabled := Some (m_is_enabled m) |}.

(** The body the worker posts, as [CheckCreate] validates it. *)
Definition check_create_of (c : check) : CheckCreate :=
  {| cc_monitor_id := monitor_id c;
     cc_status_code := status_code c;
     cc_ok := ok c;
     cc_error_reason := error_reason c |}.

(** ** Start-up of the API *)

Inductive boot_event : Type :=
| BootPrint (msg : string)
| BootSleep (secs : Z).

(** [for i in range(n): try: ...; break / except: print; sleep(1)], from
    attempt number [i] on; [attempt] tells how each attempt ends. *)
Fixpoint retry {A : Type} (tag : string) (attempt : nat -> result A)
  (i n : nat) : list boot_event * option A :=
  match n with
  | O => ([], None)
  | S n' =>
      match attempt i with
      | Ok a => ([], Some a)
      | Raise e =>
          let '(evs, r) := retry tag attempt (S i) n' in
          (BootPrint (tag ++ " " ++ str_exn e) :: BootSleep 1 :: evs, r)
      end
  end.

(** How the import of the module ends: the application is defined, with
    the tables created or not, or [sessionmaker(bind=engine)] finds
    [engine] unbound. *)
Inductive boot : Type :=
| Serving (tables_created : bool)
| NameError.

Definition startup (create_engine create_all : nat -> result unit)
  : list boot_event * boot :=
  match retry "DB connect retry..." create_engine 0 20 with
  | (evs, None) => (evs, NameError)
  | (evs, Some _) =>
      let '(evs', r) := retry "DB migrate retry..." create_all 0 20 in
      ((evs ++ evs')%list,
       Serving match r with Some _ => true | None => false end)
  end.

Definition sleeps (evs : list boot_event) : Z :=
  fold_right (fun ev acc =>
                match ev with
                | BootSleep secs => secs + acc
                | BootPrint _ => acc
                end) 0 evs.

(** A store with an enabled and a disabled monitor and three checks of
    the first. *)
Definition sample_calls : list call :=
  [PostMonitor {| b_name := "home"; b_url := "http://example.test/";
                  b_method := None; b_interval_sec := None;
                  b_timeout_ms := None; b_expected_statuses := None;
                  b_is_enabled := None |};
   PostMonitor {| b_name := "old"; b_url := "http://old.example.test/";
                  b_method := Some "HEAD"; b_interval_sec := None;
                  b_timeout_ms := Some 1000; b_expected_statuses := Some "200";
                  b_is_enabled := Some false |};
   PostCheck {| cc_monitor_id := 1; cc_status_code := Some 200;
                cc_ok := true; cc_error_reason := None |} 100;
   PostCheck {| cc_monitor_id := 1; cc_status_code := Some 503;
                cc_ok := false; cc_error_reason := None |} 300;
   PostCheck {| cc_monitor_id := 1; cc_status_code := None;
                cc_ok := false; cc_error_reason := Some "timed out" |} 200].

Definition sample_db : db := serve_all sample_calls empty_db.

(** ** The requests and reports of one iteration *)


(** The event a move adds on behalf of a probe of the current iteration. *)
Definition own_events (mv : move) (l : loop) : list event :=
  match mv with
  | MTask i o =>
      match resume_at (lp_tasks l) i o with
      | Some (ev, _) => [ev]
      | None => []
      end
  | _ => []
  end.

(** The requests and posts that the probes of the current iteration make
    along a run, those of earlier iterations left aside. *)
Fixpoint cycle_events (mvs : list move) (l : loop) : list event :=
  match mvs with
  | [] => []
  | mv :: mvs' =>
      match step mv l with
      | Some l' => (own_events mv l ++ cycle_events mvs' l')%list
      | None => []
      end
  end.

Definition is_request_event (ev : event) : bool :=
  match ev with
  | EvRequest _ _ => true
  | _ => false
  end.

Definition is_post_event (ev : event) : bool :=
  match ev with
  | EvPost _ _ => true
  | _ => false
  end.

Definition count {A : Type} (f : A -> bool) (l : list A) : nat :=
  length (filter f l).



(** What the columns of [checks] hold: a 32-bit [Integer], a text without
    NUL. *)
Definition fits_integer (z : Z) : bool :=
  (-2147483648 <=? z) && (z <=? 2147483647).

Definition storable_text (t : string) : bool :=
  negb (PyStr.contains Ascii.zero t).

Definition storable (payload : CheckCreate) : bool :=
  match cc_status_code payload with
  | Some z => fits_integer z
  | None => true
  end
  && match cc_error_reason payload with
     | Some t => storable_text t
     | None => true
     end.

(** * Properties *)

Example in_expected_204 : in_expected 204 "200-399" = Ok true.
Proof. reflexivity. Qed.

Example in_expected_201 : in_expected 201 "200,201,204" = Ok true.
Proof. reflexivity. Qed.

Example in_expected_404 : in_expected 404 "200-299" = Ok false.
Proof. reflexivity. Qed.

Example in_expected_abc : in_expected 200 "200-299,abc" = Ok true.
Proof. reflexivity. Qed.

Example in_expected_spaces : in_expected 201 " 200 , 201 " = Ok true.
Proof. reflexivity. Qed.

Example in_expected_empty : in_expected 200 EmptyString = Ok false.
Proof. reflexivity. Qed.

Example int_leading_zeros : PyStr.int "007" = Ok 7.
Proof. reflexivity. Qed.

Example isdigit_superscript :
  PyStr.isdigit sup2 = true /\ PyStr.isdecimal sup2 = false.
Proof. split; reflexivity. Qed.

(** ** Characters and strings *)

Module PyStrFacts.
Import PyStr.

Ltac by_cases_on_char c :=
  destruct c as [[] [] [] [] [] [] [] []]; vm_compute; congruence.

Lemma decimal_is_digit (c : ascii) : is_decimal c = true -> is_digit c = true.
Proof. unfold is_digit. intros ->. reflexivity. Qed.

Lemma decimal_not_space (c : ascii) : is_decimal c = true -> is_space c = false.
Proof. by_cases_on_char c. Qed.

Lemma digit_not_space (c : ascii) : is_digit c = true -> is_space c = false.
Proof. by_cases_on_char c. Qed.

Lemma digit_not_dash (c : ascii) : is_digit c = true -> Ascii.eqb c "-" = false.
Proof. by_cases_on_char c. Qed.

Lemma digit_not_comma (c : ascii) : is_digit c = true -> Ascii.eqb c "," = false.
Proof. by_cases_on_char c. Qed.

Lemma all_impl (f g : ascii -> bool) (s : string) :
  (forall c, f c = true -> g c = true) -> all f s = true -> all g s = true.
Proof.
  intros Hfg. induction s as [|c s IH]; simpl; [reflexivity|].
  intros H. apply andb_true_iff in H as [Hc Hs].
  rewrite (Hfg _ Hc), (IH Hs). reflexivity.
Qed.

Lemma all_app (f : ascii -> bool) (s t : string) :
  all f (s ++ t) = all f s && all f t.
Proof.
  induction s as [|c s IH]; simpl; [reflexivity|].
  rewrite IH, andb_assoc. reflexivity.
Qed.

Lemma all_contains (f : ascii -> bool) (c : ascii) (s : string) :
  all f s = true -> contains c s = true -> f c = true.
Proof.
  induction s as [|d s IH]; simpl; [discriminate|].
  intros Hall Hin. apply andb_true_iff in Hall as [Hd Hs].
  apply orb_true_iff in Hin as [Heq|Hin]; [|auto].
  apply Ascii.eqb_eq in Heq. congruence.
Qed.

Lemma contains_app (c : ascii) (s t : string) :
  contains c (s ++ t) = contains c s || contains c t.
Proof.
  induction s as [|d s IH]; simpl; [reflexivity|].
  rewrite IH, orb_assoc. reflexivity.
Qed.

Lemma isdecimal_isdigit (s : string) : isdecimal s = true -> isdigit s = true.
Proof.
  unfold isdecimal, isdigit. intros H.
  apply andb_true_iff in H as [-> H].
  rewrite (all_impl _ _ _ decimal_is_digit H). reflexivity.
Qed.

Lemma isdigit_no (c : ascii) (s : string) :
  is_digit c = false -> contains c s = true -> isdigit s = false.
Proof.
  intros Hc Hin. unfold isdigit.
  destruct (all is_digit s) eqn:Hall; [|apply andb_false_r].
  rewrite (all_contains _ _ _ Hall Hin) in Hc. discriminate.
Qed.

Lemma isdigit_contains (c : ascii) (s : string) :
  is_digit c = false -> isdigit s = true -> contains c s = false.
Proof.
  intros Hc Hs. destruct (contains c s) eqn:Hin; [|reflexivity].
  rewrite (isdigit_no _ _ Hc Hin) in Hs. discriminate.
Qed.

Lemma isdecimal_no (c : ascii) (s : string) :
  is_digit c = false -> contains c s = true -> isdecimal s = false.
Proof.
  intros Hc Hin. destruct (isdecimal s) eqn:H; [|reflexivity].
  apply isdecimal_isdigit in H. rewrite (isdigit_no _ _ Hc Hin) in H.
  discriminate.
Qed.

Lemma leading_decimals_le (s : string) :
  (leading_decimals s <= String.length s)%nat.
Proof.
  induction s as [|c s IH]; simpl; [lia|].
  destruct (is_decimal c); lia.
Qed.

Lemma leading_decimals_all (s : string) :
  all is_decimal s = true -> leading_decimals s = String.length s.
Proof.
  induction s as [|c s IH]; simpl; [reflexivity|]. intros H.
  apply andb_true_iff in H as [-> H]. rewrite (IH H). reflexivity.
Qed.

Lemma fits_int_cap (s : string) :
  fits_int s = true -> (int_max_str_digits <? leading_decimals s)%nat = false.
Proof.
  unfold fits_int. intros H. apply Nat.leb_le in H. apply Nat.ltb_ge.
  pose proof (leading_decimals_le s). lia.
Qed.

Lemma int_decimal (s : string) :
  isdecimal s = true -> fits_int s = true -> int s = Ok (decimal_value 0 s).
Proof.
  unfold int. intros -> H. rewrite (fits_int_cap _ H). reflexivity.
Qed.

Lemma int_not_decimal (s : string) :
  isdecimal s = false -> exists e, int s = Raise e.
Proof.
  unfold int. intros ->. destruct (_ <? _)%nat; eexists; reflexivity.
Qed.

(** Beyond the cap [int] raises, whatever follows the digits. *)
Lemma int_exceeds (s : string) :
  (int_max_str_digits < leading_decimals s)%nat ->
  int s = Raise (ValueError (exceeds_limit (leading_decimals s))).
Proof. unfold int. intros H. apply Nat.ltb_lt in H. rewrite H. reflexivity. Qed.

Lemma int_value (s : string) (v : Z) :
  int s = Ok v -> isdecimal s = true /\ v = decimal_value 0 s.
Proof.
  unfold int. destruct (_ <? _)%nat; [discriminate|].
  destruct (isdecimal s); [|discriminate]. intros [= <-]. auto.
Qed.

Lemma append_assoc (s t u : string) : (s ++ t) ++ u = s ++ t ++ u.
Proof. induction s as [|c s IH]; simpl; [reflexivity|]. rewrite IH. reflexivity. Qed.

(** *** [split] *)

Lemma split_no_sep (sep : ascii) (s : string) :
  contains sep s = false -> split sep s = [s].
Proof.
  induction s as [|c s IH]; simpl; [reflexivity|].
  intros H. apply orb_false_iff in H as [Hc Hs].
  rewrite Hc, (IH Hs). reflexivity.
Qed.

Lemma split1_app (sep : ascii) (a b : string) :
  contains sep a = false -> split1 sep (a ++ String sep b) = [a; b].
Proof.
  induction a as [|c a IH]; simpl.
  - intros _. rewrite Ascii.eqb_refl. reflexivity.
  - intros H. apply orb_false_iff in H as [Hc Ha].
    rewrite Hc, (IH Ha). reflexivity.
Qed.

Lemma contains_cut (sep : ascii) (s : string) :
  contains sep s = true ->
  exists a b, s = a ++ String sep b /\ contains sep a = false.
Proof.
  induction s as [|c s IH]; simpl; [discriminate|].
  destruct (Ascii.eqb c sep) eqn:Hc; simpl.
  - intros _. apply Ascii.eqb_eq in Hc as ->.
    exists EmptyString, s. split; reflexivity.
  - intros H. destruct (IH H) as (a & b & -> & Ha).
    exists (String c a), b. simpl. rewrite Hc, Ha. split; reflexivity.
Qed.

(** *** [strip] *)

Lemma lstrip_app (a : string) (c : ascii) (b : string) :
  is_space c = false -> lstrip (a ++ String c b) = lstrip a ++ String c b.
Proof.
  intros Hc. induction a as [|d a IH]; simpl.
  - rewrite Hc. reflexivity.
  - destruct (is_space d); [exact IH|reflexivity].
Qed.

Lemma rstrip_app (a : string) (c : ascii) (b : string) :
  is_space c = false -> rstrip (a ++ String c b) = a ++ String c (rstrip b).
Proof.
  intros Hc. induction a as [|d a IH]; simpl.
  - rewrite Hc. destruct (rstrip b); reflexivity.
  - rewrite IH. destruct a; reflexivity.
Qed.

Lemma lstrip_no_space (s : string) :
  all (fun c => negb (is_space c)) s = true -> lstrip s = s.
Proof.
  destruct s as [|c s]; simpl; [reflexivity|].
  intros H. apply andb_true_iff in H as [Hc _].
  apply negb_true_iff in Hc. rewrite Hc. reflexivity.
Qed.

Lemma rstrip_no_space (s : string) :
  all (fun c => negb (is_space c)) s = true -> rstrip s = s.
Proof.
  induction s as [|c s IH]; simpl; [reflexivity|].
  intros H. apply andb_true_iff in H as [Hc Hs].
  apply negb_true_iff in Hc. rewrite (IH Hs), Hc.
  destruct s; reflexivity.
Qed.

Lemma digits_no_space (s : string) :
  all is_digit s = true -> all (fun c => negb (is_space c)) s = true.
Proof.
  apply all_impl. intros c H. rewrite (digit_not_space _ H). reflexivity.
Qed.

Lemma isdigit_all (s : string) : isdigit s = true -> all is_digit s = true.
Proof. unfold isdigit. intros H. apply andb_true_iff in H. tauto. Qed.

Lemma lstrip_isdigit (s : string) : isdigit s = true -> lstrip s = s.
Proof. intros H. apply lstrip_no_space, digits_no_space, isdigit_all, H. Qed.

Lemma rstrip_isdigit (s : string) : isdigit s = true -> rstrip s = s.
Proof. intros H. apply rstrip_no_space, digits_no_space, isdigit_all, H. Qed.

Lemma strip_range (a b : string) :
  strip (a ++ String "-" b) = lstrip a ++ String "-" (rstrip b).
Proof.
  unfold strip. rewrite lstrip_app by reflexivity.
  apply rstrip_app. reflexivity.
Qed.

End PyStrFacts.

(** ** The evaluator on one range token *)

Section RangeToken.
Import PyStr PyStrFacts.

Variable status : Z.

Lemma in_expected_one_token (spec : string) :
  contains "," spec = false ->
  in_expected status spec = in_expected_loop status [strip spec].
Proof.
  intros H. unfold in_expected. rewrite (split_no_sep _ _ H). reflexivity.
Qed.

Lemma in_expected_loop_range (a b : string) :
  contains "-" a = false ->
  in_expected_loop status [a ++ String "-" b] = range_token status a b.
Proof.
  intros Ha. unfold range_token. simpl.
  rewrite contains_app, Ha. simpl. rewrite (split1_app _ _ _ Ha).
  destruct (isdigit a && isdigit b); [|reflexivity].
  destruct (int a) as [lo|e]; simpl; [|reflexivity].
  destruct (lo <=? status); [|reflexivity].
  destruct (int b) as [hi|e]; simpl; [|reflexivity].
  destruct (status <=? hi); reflexivity.
Qed.

Lemma in_expected_loop_dashes (a b c : string) :
  contains "-" a = false ->
  in_expected_loop status [a ++ String "-" (b ++ String "-" c)] = Ok false.
Proof.
  intros Ha. rewrite (in_expected_loop_range _ _ Ha). unfold range_token.
  rewrite (isdigit_no "-" (b ++ String "-" c)), andb_false_r; [reflexivity..|].
  rewrite contains_app. simpl. apply orb_true_r.
Qed.

Lemma range_token_decimal (a b : string) :
  isdecimal a = true -> isdecimal b = true ->
  fits_int a = true -> fits_int b = true ->
  range_token status a b =
  Ok ((decimal_value 0 a <=? status) && (status <=? decimal_value 0 b)).
Proof.
  intros Ha Hb Fa Fb. unfold range_token.
  rewrite (isdecimal_isdigit _ Ha), (isdecimal_isdigit _ Hb).
  rewrite (int_decimal _ Ha Fa), (int_decimal _ Hb Fb). simpl.
  destruct (decimal_value 0 a <=? status); [|reflexivity].
  destruct (status <=? decimal_value 0 b); reflexivity.
Qed.

Lemma range_token_not_digit (a b : string) :
  isdigit a = false \/ isdigit b = false -> range_token status a b = Ok false.
Proof.
  unfold range_token.
  intros [-> | ->]; [|rewrite andb_false_r]; reflexivity.
Qed.

Lemma range_token_not_decimal (a b : string) :
  isdecimal a = false \/ isdecimal b = false -> range_token status a b <> Ok true.
Proof.
  intros H. unfold range_token.
  destruct (isdigit a && isdigit b); [|discriminate].
  destruct (isdecimal a) eqn:Ha.
  - destruct (int a) as [lo|e]; simpl; [|discriminate].
    destruct (_ <=? status); [|discriminate].
    destruct H as [H|H]; [discriminate|].
    destruct (int_not_decimal _ H) as [e ->]. discriminate.
  - destruct (int_not_decimal _ Ha) as [e ->]. discriminate.
Qed.

(** A spec [A-B] without commas is one token, cut at its first dash after
    trimming. *)
Lemma range_spec_cases (A B : string) :
  contains "," A = false -> contains "," B = false ->
  (contains "-" (lstrip A) = true /\
   in_expected status (A ++ String "-" B) = Ok false) \/
  (contains "-" (lstrip A) = false /\
   in_expected status (A ++ String "-" B) = range_token status (lstrip A) (rstrip B)).
Proof.
  intros HA HB. rewrite in_expected_one_token.
  2:{ rewrite contains_app. simpl. rewrite HA, HB. reflexivity. }
  rewrite strip_range.
  destruct (contains "-" (lstrip A)) eqn:Hd.
  - left. split; [reflexivity|].
    destruct (contains_cut _ _ Hd) as (a1 & a2 & -> & Ha1).
    rewrite append_assoc. simpl.
    apply in_expected_loop_dashes, Ha1.
  - right. split; [reflexivity|]. apply in_expected_loop_range, Hd.
Qed.

End RangeToken.

(** C1. For a spec [A-B] whose bounds are non-empty strings of at most
    4300 decimal digits, [in_expected s] returns true exactly when
    [A <= s <= B]; when a bound of the trimmed token is rejected by
    [isdigit] the result is false, when a bound is not a decimal literal
    the result is never true, and a reversed range gives false for every
    [s]. *)
Theorem in_expected_range (s : Z) (A B : string) :
  (PyStr.isdecimal A = true -> PyStr.isdecimal B = true ->
   fits_int A = true -> fits_int B = true ->
   in_expected s (A ++ "-" ++ B) =
   Ok ((PyStr.decimal_value 0 A <=? s) && (s <=? PyStr.decimal_value 0 B)))
  /\
  (PyStr.contains "," A = false -> PyStr.contains "," B = false ->
   PyStr.isdigit (PyStr.lstrip A) = false \/
   PyStr.isdigit (PyStr.rstrip B) = false ->
   in_expected s (A ++ "-" ++ B) = Ok false)
  /\
  (PyStr.contains "," A = false -> PyStr.contains "," B = false ->
   PyStr.isdecimal (PyStr.lstrip A) = false \/
   PyStr.isdecimal (PyStr.rstrip B) = false ->
   in_expected s (A ++ "-" ++ B) <> Ok true)
  /\
  (PyStr.isdecimal A = true -> PyStr.isdecimal B = true ->
   fits_int A = true -> fits_int B = true ->
   PyStr.decimal_value 0 B < PyStr.decimal_value 0 A ->
   in_expected s (A ++ "-" ++ B) = Ok false).
Proof.
  change (A ++ "-" ++ B) with (A ++ String "-" B).
  assert (Hdec : PyStr.isdecimal A = true -> PyStr.isdecimal B = true ->
    fits_int A = true -> fits_int B = true ->
    in_expected s (A ++ String "-" B) =
    Ok ((PyStr.decimal_value 0 A <=? s) && (s <=? PyStr.decimal_value 0 B))).
  { intros HA HB FA FB.
    pose proof (PyStrFacts.isdecimal_isdigit _ HA) as HA'.
    pose proof (PyStrFacts.isdecimal_isdigit _ HB) as HB'.
    destruct (range_spec_cases s A B) as [[Hd _]|[_ H]].
    - apply PyStrFacts.isdigit_contains; [reflexivity|exact HA'].
    - apply PyStrFacts.isdigit_contains; [reflexivity|exact HB'].
    - rewrite PyStrFacts.lstrip_isdigit in Hd by assumption.
      rewrite PyStrFacts.isdigit_contains in Hd;
        [discriminate|reflexivity|exact HA'].
    - rewrite H, PyStrFacts.lstrip_isdigit, PyStrFacts.rstrip_isdigit
        by assumption.
      apply range_token_decimal; assumption. }
  repeat split.
  - exact Hdec.
  - intros HA HB H.
    destruct (range_spec_cases s A B HA HB) as [[_ E]|[_ E]];
      [exact E|]. rewrite E. apply range_token_not_digit, H.
  - intros HA HB H.
    destruct (range_spec_cases s A B HA HB) as [[_ E]|[_ E]];
      rewrite E; [discriminate|]. apply range_token_not_decimal, H.
  - intros HA HB FA FB Hlt. rewrite (Hdec HA HB FA FB). f_equal.
    apply andb_false_iff. rewrite Z.leb_gt, Z.leb_gt. lia.
Qed.

Lemma in_expected_range_witness :
  in_expected 250 ("200" ++ "-" ++ "399") = Ok true /\
  in_expected 250 ("2x" ++ "-" ++ "399") = Ok false /\
  in_expected 250 (sup2 ++ "-" ++ "399") <> Ok true /\
  in_expected 250 ("399" ++ "-" ++ "200") = Ok false.
Proof.
  destruct (in_expected_range 250 "200" "399") as (H1 & _).
  destruct (in_expected_range 250 "2x" "399") as (_ & H2 & _).
  destruct (in_expected_range 250 sup2 "399") as (_ & _ & H3 & _).
  destruct (in_expected_range 250 "399" "200") as (_ & _ & _ & H4).
  split; [|split; [|split]].
  - apply H1; reflexivity.
  - apply H2; [reflexivity | reflexivity | left; reflexivity].
  - apply H3; [reflexivity | reflexivity | left; reflexivity].
  - apply H4; [reflexivity | reflexivity | reflexivity | reflexivity
               | vm_compute; reflexivity].
Defined.

(** C1, as stated, fails: a bound of 4301 digits is a string of decimal
    digits, and [int] refuses it. *)
Lemma in_expected_range_digit_limit :
  ~ (forall (s : Z) (A B : string),
       PyStr.isdecimal A = true -> PyStr.isdecimal B = true ->
       in_expected s (A ++ "-" ++ B) =
       Ok ((PyStr.decimal_value 0 A <=? s) && (s <=? PyStr.decimal_value 0 B))).
Proof.
  intros H.
  assert (E : PyStr.isdecimal (replicate 4301 "1") = true)
    by (vm_compute; reflexivity).
  specialize (H 200 "200" (replicate 4301 "1") eq_refl E).
  assert (R : in_expected 200 ("200" ++ "-" ++ replicate 4301 "1") =
              Raise (ValueError (PyStr.exceeds_limit 4301)))
    by (vm_compute; reflexivity).
  rewrite R in H. discriminate H.
Qed.

(** ** The evaluator on whole specifications *)

Section WholeSpec.
Import PyStr PyStrFacts.

Variable status : Z.

Lemma all_split (f : ascii -> bool) (sep : ascii) (s : string) :
  all f s = true -> Forall (fun p => all f p = true) (split sep s).
Proof.
  induction s as [|c s IH]; simpl; intros H.
  - repeat constructor.
  - apply andb_true_iff in H as [Hc Hs]. specialize (IH Hs).
    destruct (Ascii.eqb c sep).
    + constructor; [reflexivity|exact IH].
    + destruct (split sep s) as [|p ps].
      * repeat constructor. simpl. rewrite Hc. reflexivity.
      * inversion IH; subst. constructor; [|assumption].
        simpl. rewrite Hc. assumption.
Qed.

Lemma all_lstrip (f : ascii -> bool) (s : string) :
  all f s = true -> all f (lstrip s) = true.
Proof.
  induction s as [|c s IH]; simpl; [reflexivity|]. intros H.
  destruct (is_space c); [|exact H].
  apply andb_true_iff in H as [_ Hs]. auto.
Qed.

Lemma all_rstrip (f : ascii -> bool) (s : string) :
  all f s = true -> all f (rstrip s) = true.
Proof.
  induction s as [|c s IH]; simpl; [reflexivity|]. intros H.
  apply andb_true_iff in H as [Hc Hs]. specialize (IH Hs).
  destruct (rstrip s) as [|d r].
  - destruct (is_space c); simpl; [reflexivity|]. rewrite Hc. reflexivity.
  - change (f c && all f (String d r) = true). rewrite Hc. exact IH.
Qed.

Lemma all_strip (f : ascii -> bool) (s : string) :
  all f s = true -> all f (strip s) = true.
Proof. intros H. apply all_rstrip, all_lstrip, H. Qed.

Lemma tokens_decimal_digits_only (spec : string) :
  decimal_digits_only spec = true ->
  Forall (fun p => decimal_digits_only p = true) (tokens spec).
Proof.
  intros H. unfold tokens. apply Forall_map.
  eapply Forall_impl; [|apply all_split, H].
  intros p. apply all_strip.
Qed.

Lemma isdigit_isdecimal (s : string) :
  decimal_digits_only s = true -> isdigit s = isdecimal s.
Proof.
  unfold isdigit, isdecimal, decimal_digits_only. intros H. f_equal.
  induction s as [|c s IH]; simpl in *; [reflexivity|].
  apply andb_true_iff in H as [Hc Hs]. rewrite (IH Hs). f_equal.
  destruct (is_digit c) eqn:Hd; simpl in Hc.
  - symmetry. exact Hc.
  - destruct (is_decimal c) eqn:He; [|reflexivity].
    rewrite (decimal_is_digit _ He) in Hd. discriminate.
Qed.

Lemma split1_no_sep (sep : ascii) (s : string) :
  contains sep s = false -> split1 sep s = [s].
Proof.
  induction s as [|c s IH]; simpl; [reflexivity|].
  intros H. apply orb_false_iff in H as [Hc Hs].
  rewrite Hc, (IH Hs). reflexivity.
Qed.

Lemma isdecimal_no_dash (s : string) :
  isdecimal s = true -> contains "-" s = false.
Proof.
  intros H. apply isdigit_contains; [reflexivity|].
  apply isdecimal_isdigit, H.
Qed.

Lemma length_append (a b : string) :
  String.length (a ++ b) = (String.length a + String.length b)%nat.
Proof. induction a as [|c a IH]; simpl; [reflexivity|]. rewrite IH. reflexivity. Qed.

Lemma fits_int_cut (a : string) (c : ascii) (b : string) :
  fits_int (a ++ String c b) = true -> fits_int a = true /\ fits_int b = true.
Proof.
  unfold fits_int. rewrite length_append. simpl. intros H.
  apply Nat.leb_le in H. split; apply Nat.leb_le; lia.
Qed.

(** One turn of the loop on a token free of superscript digits and no
    longer than [int] accepts. *)
Lemma in_expected_loop_cons (p : string) (rest : list string) :
  decimal_digits_only p = true -> fits_int p = true ->
  in_expected_loop status (p :: rest) =
  if token_matches status p then Ok true else in_expected_loop status rest.
Proof.
  intros Hp Fp. unfold token_matches. simpl.
  destruct (contains "-" p) eqn:Hd.
  - rewrite (isdecimal_no "-" p) by (reflexivity || assumption).
    destruct (contains_cut _ _ Hd) as (a & b & -> & Ha).
    rewrite (split1_app _ _ _ Ha).
    unfold decimal_digits_only in Hp. rewrite all_app in Hp.
    apply andb_true_iff in Hp as [Hpa Hpb]. simpl in Hpb.
    destruct (fits_int_cut _ _ _ Fp) as [Fa Fb].
    rewrite (isdigit_isdecimal a Hpa), (isdigit_isdecimal b Hpb).
    destruct (isdecimal a) eqn:Ea; simpl; [|reflexivity].
    destruct (isdecimal b) eqn:Eb; simpl; [|reflexivity].
    rewrite (int_decimal _ Ea Fa), (int_decimal _ Eb Fb). simpl.
    destruct (_ <=? status); simpl; [|reflexivity].
    destruct (status <=? _); reflexivity.
  - rewrite (isdigit_isdecimal p Hp).
    destruct (isdecimal p) eqn:Ep.
    + rewrite (int_decimal _ Ep Fp). reflexivity.
    + rewrite (split1_no_sep _ _ Hd). reflexivity.
Qed.

Lemma in_expected_loop_matches (parts : list string) :
  Forall (fun p => decimal_digits_only p = true) parts ->
  forallb fits_int parts = true ->
  in_expected_loop status parts = Ok (existsb (token_matches status) parts).
Proof.
  induction 1 as [|p rest Hp _ IH]; [reflexivity|].
  cbn [forallb]. intros F. apply andb_true_iff in F as [Fp F].
  rewrite (in_expected_loop_cons _ _ Hp Fp). simpl.
  destruct (token_matches status p); [reflexivity|exact (IH F)].
Qed.

(** On a spec without superscript digits and without a token longer than
    [int] accepts, the evaluator returns, and returns what the
    specification says: whether some valid token is satisfied. *)
Lemma in_expected_matches (spec : string) :
  decimal_digits_only spec = true -> short_tokens spec = true ->
  in_expected status spec = Ok (matches status spec).
Proof.
  intros H F.
  apply in_expected_loop_matches; [apply tokens_decimal_digits_only, H|exact F].
Qed.

Lemma split_app (sep : ascii) (a b : string) :
  contains sep a = false ->
  split sep (a ++ String sep b) = a :: split sep b.
Proof.
  induction a as [|c a IH]; simpl.
  - intros _. rewrite Ascii.eqb_refl. reflexivity.
  - intros H. apply orb_false_iff in H as [Hc Ha].
    rewrite Hc, (IH Ha). reflexivity.
Qed.

Lemma split_join (sep : ascii) (ps : list string) :
  ps <> [] -> Forall (fun p => contains sep p = false) ps ->
  split sep (join (String sep EmptyString) ps) = ps.
Proof.
  intros Hne H. induction H as [|p ps Hp Hps IH]; [congruence|].
  destruct ps as [|q ps]; simpl.
  - apply split_no_sep, Hp.
  - change (split sep (p ++ String sep (join (String sep EmptyString) (q :: ps)))
            = p :: q :: ps).
    rewrite (split_app _ _ _ Hp), IH by discriminate. reflexivity.
Qed.

Lemma strip_isdecimal (s : string) : isdecimal s = true -> strip s = s.
Proof.
  intros H. apply isdecimal_isdigit in H. unfold strip.
  rewrite (lstrip_isdigit _ H). apply rstrip_isdigit, H.
Qed.

Lemma token_matches_decimal (p : string) :
  isdecimal p = true ->
  token_matches status p = (decimal_value 0 p =? status).
Proof. unfold token_matches. intros ->. reflexivity. Qed.

(** A comma-separated list of decimal integers matches the statuses it
    lists. *)
Lemma in_expected_exact_list (ds : list string) :
  ds <> [] -> Forall (fun d => isdecimal d = true) ds ->
  forallb fits_int ds = true ->
  in_expected status (join "," ds) =
  Ok (existsb (fun d => decimal_value 0 d =? status) ds).
Proof.
  intros Hne H F. unfold in_expected.
  rewrite split_join; [|exact Hne|].
  2:{ eapply Forall_impl; [|exact H]. intros d Hd.
      apply isdigit_contains; [reflexivity|apply isdecimal_isdigit, Hd]. }
  replace (map strip ds) with ds.
  2:{ clear Hne F. induction H as [|d ds Hd _ IH]; [reflexivity|].
      simpl. rewrite (strip_isdecimal _ Hd), <- IH. reflexivity. }
  rewrite in_expected_loop_matches; [| |exact F].
  - f_equal. clear Hne F. induction H as [|d ds Hd _ IH]; [reflexivity|].
    simpl. rewrite (token_matches_decimal _ Hd), IH. reflexivity.
  - eapply Forall_impl; [|exact H]. intros d Hd.
    unfold isdecimal in Hd. apply andb_true_iff in Hd as [_ Hd].
    unfold decimal_digits_only. revert Hd. apply all_impl.
    intros c Hc. rewrite Hc. apply implb_true_r.
Qed.

End WholeSpec.

Example in_expected_exact_list_example :
  in_expected 204 (join "," ["200"; "201"; "204"]) = Ok true.
Proof.
  apply in_expected_exact_list; [discriminate|repeat constructor|reflexivity].
Qed.

(** C2. A token made of the superscript two is accepted by [isdigit] and
    then rejected by [int]: the evaluator does not skip it, it raises. *)
Theorem in_expected_superscript_raises :
  in_expected 200 sup2 =
  Raise (ValueError ("invalid literal for int() with base 10: '" ++ sup2 ++ "'")).
Proof. reflexivity. Qed.

(** The raise is reached only when no earlier token matched. *)
Example in_expected_superscript_after_match :
  in_expected 200 ("200," ++ sup2) = Ok true /\
  (exists e, in_expected 200 (sup2 ++ ",200") = Raise e) /\
  in_expected 7 ("9-" ++ sup2) = Ok false /\
  (exists e, in_expected 9 ("9-" ++ sup2) = Raise e).
Proof. repeat split; try reflexivity; eexists; reflexivity. Qed.

(** ** The probe *)

Section Probe.

Variable mon : monitor.

Lemma check_of_response (st : Z) (b : bool) :
  in_expected st (get (mon_expected_statuses mon) "200-399") = Ok b ->
  check_of mon (Ok st) =
  Some {| monitor_id := mon_id mon; status_code := Some st;
          ok := b; error_reason := None |}.
Proof. unfold check_of. simpl. intros ->. reflexivity. Qed.

Lemma check_of_evaluator_raises (st : Z) (e : exn) :
  in_expected st (get (mon_expected_statuses mon) "200-399") = Raise e ->
  check_of mon (Ok st) =
  Some {| monitor_id := mon_id mon; status_code := Some st; ok := false;
          error_reason := Some (PyStr.take 300 (str_exn e)) |}.
Proof. unfold check_of. simpl. intros ->. reflexivity. Qed.

Lemma check_of_failure (e : exn) :
  check_of mon (Raise e) =
  Some {| monitor_id := mon_id mon; status_code := None; ok := false;
          error_reason := Some (PyStr.take 300 (str_exn e)) |}.
Proof. reflexivity. Qed.

(** On a spec without superscript digits and without a token longer than
    [int] accepts, a response is classified by the specification's
    [matches] and carries no error text. *)
Lemma check_of_response_matches (st : Z) :
  decimal_digits_only (get (mon_expected_statuses mon) "200-399") = true ->
  short_tokens (get (mon_expected_statuses mon) "200-399") = true ->
  check_of mon (Ok st) =
  Some {| monitor_id := mon_id mon; status_code := Some st;
          ok := matches st (get (mon_expected_statuses mon) "200-399");
          error_reason := None |}.
Proof. intros H F. apply check_of_response, in_expected_matches; assumption. Qed.

(** A check is [ok] only for a received status that the evaluator
    accepted, and then carries no error text. *)
Lemma check_of_ok (resp : result Z) (c : check) :
  check_of mon resp = Some c -> ok c = true ->
  exists st, resp = Ok st /\ status_code c = Some st /\
    in_expected st (get (mon_expected_statuses mon) "200-399") = Ok true /\
    error_reason c = None.
Proof.
  destruct resp as [st|e].
  - destruct (in_expected st (get (mon_expected_statuses mon) "200-399"))
      as [b|e] eqn:E.
    + rewrite (check_of_response _ _ E). intros [= <-]. simpl.
      intros ->. exists st. auto.
    + rewrite (check_of_evaluator_raises _ _ E). intros [= <-]. discriminate.
  - rewrite check_of_failure. intros [= <-]. discriminate.
Qed.

End Probe.

Lemma check_of_total (mon : monitor) (r : result Z) :
  exists c, check_of mon r = Some c.
Proof.
  destruct r as [st|e]; [|eexists; apply check_of_failure].
  destruct (in_expected st (get (mon_expected_statuses mon) "200-399"))
    as [b|e] eqn:E; eexists.
  - apply check_of_response, E.
  - apply check_of_evaluator_raises, E.
Qed.

(** A probe is one request followed by one post, whatever their outcomes. *)
Lemma task_run_check_once (mon : monitor) (r : result Z) (c : check)
  (p : result unit) :
  check_of mon r = Some c ->
  exists rq,
    task_run (check_once mon) [IoResponse r; IoPosted p] =
    Some ([EvRequest rq r; EvPost c p],
          match p with Ok _ => TReturn | Raise e => TRaise e end).
Proof.
  unfold check_of, check_once. cbn [resume task_run].
  destruct r as [st|e];
    [destruct (in_expected st (get (mon_expected_statuses mon) "200-399"))|];
    intros [= <-]; eexists; cbn [resume]; reflexivity.
Qed.

Lemma length_take (n : nat) (s : string) :
  (String.length (PyStr.take n s) <= n)%nat.
Proof.
  revert s. induction n as [|n IH]; intros [|c s]; simpl; try lia.
  specialize (IH s). lia.
Qed.

Lemma take_prefix (n : nat) (s : string) :
  exists rest, s = PyStr.take n s ++ rest.
Proof.
  revert s. induction n as [|n IH]; intros s.
  - exists s. destruct s; reflexivity.
  - destruct s as [|c s]; [exists EmptyString; reflexivity|].
    destruct (IH s) as [rest H]. exists rest. simpl. rewrite <- H. reflexivity.
Qed.

Lemma take_all (n : nat) (s : string) :
  (String.length s <= n)%nat -> PyStr.take n s = s.
Proof.
  revert s. induction n as [|n IH]; intros [|c s]; simpl; try reflexivity.
  - lia.
  - intros H. rewrite IH by lia. reflexivity.
Qed.

Lemma take_empty (n : nat) (s : string) :
  PyStr.take (S n) s = EmptyString <-> s = EmptyString.
Proof. destruct s; simpl; split; congruence. Qed.

(** C3. With the superscript two as expected statuses, a probe that
    received status 200 reports the status together with an error text and
    [ok = false]. *)
Theorem check_once_superscript_spec :
  check_of sup2_monitor (Ok 200) =
  Some {| monitor_id := 7; status_code := Some 200; ok := false;
          error_reason :=
            Some ("invalid literal for int() with base 10: '" ++ sup2 ++ "'") |}.
Proof. reflexivity. Qed.

(** C4. When the request raises, the check has no status, [ok = false],
    and as error text the first 300 characters of the exception's
    description: at most 300 characters, the whole description when it is
    no longer than that, and empty exactly when the description is empty. *)
Theorem check_once_transport_failure (mon : monitor) (e : exn) :
  check_of mon (Raise e) =
  Some {| monitor_id := mon_id mon; status_code := None; ok := false;
          error_reason := Some (PyStr.take 300 (str_exn e)) |}
  /\ (String.length (PyStr.take 300 (str_exn e)) <= 300)%nat
  /\ (exists rest, str_exn e = PyStr.take 300 (str_exn e) ++ rest)
  /\ ((String.length (str_exn e) <= 300)%nat ->
      PyStr.take 300 (str_exn e) = str_exn e)
  /\ (PyStr.take 300 (str_exn e) = EmptyString <-> str_exn e = EmptyString).
Proof.
  split; [apply check_of_failure|].
  split; [apply length_take|].
  split; [apply take_prefix|].
  split; [apply take_all|apply take_empty].
Qed.

Lemma check_once_transport_failure_witness :
  PyStr.take 300 (str_exn (HTTPError "All connection attempts failed"))
  = "All connection attempts failed".
Proof.
  apply (check_once_transport_failure (plain_monitor 1)
           (HTTPError "All connection attempts failed")).
  simpl. lia.
Defined.

(** C4, as stated, fails: an exception whose description is empty gives an
    empty error text. *)
Lemma check_once_empty_error_reason :
  ~ (forall (mon : monitor) (e : exn),
       exists c reason,
         check_of mon (Raise e) = Some c /\ status_code c = None /\
         ok c = false /\ error_reason c = Some reason /\
         reason <> EmptyString /\ (String.length reason <= 300)%nat).
Proof.
  intros H.
  destruct (H (plain_monitor 1) (HTTPError EmptyString))
    as (c & reason & Hc & _ & _ & Hr & Hne & _).
  rewrite check_of_failure in Hc. injection Hc as <-.
  simpl in Hr. injection Hr as <-. apply Hne. reflexivity.
Qed.




(** C6. With the superscript two as expected statuses, every received
    status is reported together with an error text. *)
Theorem check_once_status_with_error (st : Z) :
  exists c,
    check_of sup2_monitor (Ok st) = Some c /\
    status_code c = Some st /\ ok c = false /\ error_reason c <> None.
Proof.
  eexists. split; [reflexivity|]. simpl. repeat split. discriminate.
Qed.

(** ** The scheduling loop *)

Lemma check_once_shape (mon : monitor) :
  exists rq k,
    check_once mon = TRequest rq k /\
    forall r, exists c, check_of mon r = Some c /\ k r = TPost c after_post.
Proof.
  unfold check_of, check_once. cbn [resume]. do 2 eexists.
  split; [reflexivity|]. intros r. cbv beta.
  destruct r as [st|e];
    [destruct (in_expected st (get (mon_expected_statuses mon) "200-399"))|];
    eexists; split; reflexivity.
Qed.

(** A probe that has run to completion made one request and one post. *)
Lemma task_run_done (mon : monitor) (os : list io) (evs : list event)
  (t : task) :
  task_run (check_once mon) os = Some (evs, t) -> is_done t = true ->
  exists rq r c p,
    os = [IoResponse r; IoPosted p] /\ evs = [EvRequest rq r; EvPost c p] /\
    check_of mon r = Some c.
Proof.
  destruct (check_once_shape mon) as (rq & k & -> & Hk).
  destruct os as [|o1 os]; cbn [task_run]; [intros [= <- <-]; discriminate|].
  destruct o1 as [r|p1]; cbn [resume]; [|discriminate].
  destruct (Hk r) as (c & Hc & ->).
  destruct os as [|o2 os]; cbn [task_run]; [intros [= <- <-]; discriminate|].
  destruct o2 as [r2|p]; cbn [resume]; [discriminate|].
  destruct os as [|o3 os]; cbn [task_run].
  - intros [= <- <-] _. exists rq, r, c, p. auto.
  - destruct p; cbn [after_post resume]; destruct o3; discriminate.
Qed.

Lemma filter_enabled_all (monitors : list monitor) :
  Forall (fun m => mon_is_enabled m = Some true) monitors ->
  filter enabled monitors = monitors.
Proof.
  induction 1 as [|m ms Hm _ IH]; [reflexivity|].
  simpl. unfold enabled at 1. rewrite Hm, IH. reflexivity.
Qed.

Lemma filter_enabled_none (monitors : list monitor) :
  Forall (fun m => mon_is_enabled m = Some false) monitors ->
  filter enabled monitors = [].
Proof.
  induction 1 as [|m ms Hm _ IH]; [reflexivity|].
  simpl. unfold enabled at 1. rewrite Hm, IH. reflexivity.
Qed.

Lemma enabled_not_disabled (m : monitor) : enabled m = negb (disabled m).
Proof. unfold enabled, disabled. destruct (mon_is_enabled m) as [[]|]; reflexivity. Qed.

Lemma length_filter_enabled (monitors : list monitor) :
  (length (filter enabled monitors) + length (filter disabled monitors)
   = length monitors)%nat.
Proof.
  induction monitors as [|m ms IH]; [reflexivity|].
  simpl. rewrite enabled_not_disabled. destruct (disabled m); simpl; lia.
Qed.

(** The first two moves of an iteration whose fetch succeeded: the list is
    delivered, and the runner gathers the probes of the enabled monitors, or
    sleeps when there are none. *)
Lemma cycle_spawn (l : loop) (monitors : list monitor) :
  lp_runner l = Running runner_body -> lp_tasks l = [] ->
  exists l',
    run [MGet (Ok monitors); MRunner] l = Some l' /\
    lp_tasks l' = map check_once (filter enabled monitors).
Proof.
  intros Hr Ht. cbn [run]. unfold step at 1. rewrite Hr. cbn.
  destruct (map check_once (filter enabled monitors)) as [|t ts] eqn:E; cbn.
  - eexists. split; [reflexivity|]. exact Ht.
  - eexists. split; reflexivity.
Qed.

(** Once the list is fetched, the iteration launches one probe for each
    monitor that is not disabled, in the order of the list: as many as
    there are monitors when all are enabled, and none for a monitor whose
    [is_enabled] is false.  Each probe launched, run on its own, makes one
    request and then one post of a check, whatever their outcomes. *)
Theorem cycle_launches_enabled (l : loop) (monitors : list monitor) :
  lp_runner l = Running runner_body -> lp_tasks l = [] ->
  exists l',
    run [MGet (Ok monitors); MRunner] l = Some l' /\
    lp_tasks l' = map check_once (filter enabled monitors) /\
    (Forall (fun m => mon_is_enabled m = Some true) monitors ->
     lp_tasks l' = map check_once monitors /\
     length (lp_tasks l') = length monitors) /\
    (length (lp_tasks l') + length (filter disabled monitors)
     = length monitors)%nat /\
    Forall (fun m => mon_is_enabled m <> Some false) (filter enabled monitors) /\
    (forall t, In t (lp_tasks l') ->
       forall r p, exists rq c,
         task_run t [IoResponse r; IoPosted p] =
         Some ([EvRequest rq r; EvPost c p], after_post p)) /\
    (forall t os evs t', In t (lp_tasks l') ->
       task_run t os = Some (evs, t') -> is_done t' = true ->
       exists rq r c p, evs = [EvRequest rq r; EvPost c p]).
Proof.
  intros Hr Ht. destruct (cycle_spawn l monitors Hr Ht) as (l' & Hrun & Hts).
  exists l'. split; [exact Hrun|]. split; [exact Hts|]. rewrite Hts.
  split; [|split; [|split; [|split]]].
  - intros Hall. rewrite (filter_enabled_all _ Hall).
    split; [reflexivity|apply length_map].
  - rewrite length_map. apply length_filter_enabled.
  - apply Forall_forall. intros m Hm. apply filter_In in Hm as [_ Hm].
    unfold enabled in Hm. intros E. rewrite E in Hm. discriminate.
  - intros t Hin r p. apply in_map_iff in Hin as (m & <- & _).
    destruct (check_of_total m r) as [c Hc].
    destruct (task_run_check_once m r c p Hc) as [rq H].
    exists rq, c. rewrite H. destruct p; reflexivity.
  - intros t os evs t' Hin Hrun' Hdone. apply in_map_iff in Hin as (m & <- & _).
    destruct (task_run_done m os evs t' Hrun' Hdone) as (rq & r & c & p & _ & E & _).
    exists rq, r, c, p. exact E.
Qed.

Lemma cycle_launches_enabled_witness :
  exists l',
    run [MGet (Ok [plain_monitor 1; plain_monitor 2]); MRunner] start = Some l' /\
    lp_tasks l' = [check_once (plain_monitor 1); check_once (plain_monitor 2)] /\
    length (lp_tasks l') = 2%nat.
Proof.
  destruct (cycle_launches_enabled start [plain_monitor 1; plain_monitor 2])
    as (l' & Hrun & _ & Hall & _); [reflexivity|reflexivity|].
  exists l'. split; [exact Hrun|]. apply Hall. repeat constructor.
Defined.

(** C8. When the fetch raises, the runner prints the error and goes to
    sleep without having launched a probe; it cannot fetch again before the
    sleep is over, and after that one sleep of 60 seconds it is back at the
    fetch of the next iteration. *)
Theorem fetch_failure_skips_cycle (l : loop) (e : exn) :
  lp_runner l = Running runner_body -> lp_tasks l = [] ->
  exists l1 l2,
    run [MGet (Raise e); MRunner] l = Some l1 /\
    sleeping l1 = true /\ lp_tasks l1 = [] /\ lp_orphans l1 = lp_orphans l /\
    lp_trace l1 =
    (lp_trace l ++
     [EvGet (Raise e); EvPrint ("worker loop error: " ++ str_exn e)])%list /\
    (forall r, step (MGet r) l1 = None) /\
    (forall i o, step (MTask i o) l1 = None) /\
    run [MRunner; MRunner] l1 = Some l2 /\
    lp_runner l2 = Running runner_body /\ lp_tasks l2 = [] /\
    lp_trace l2 = (lp_trace l1 ++ [EvSleep 60])%list.
Proof.
  intros Hr Ht. cbn [run]. unfold step at 1. rewrite Hr. cbn. rewrite Ht.
  do 2 eexists. split; [reflexivity|]. cbn.
  repeat (split; [reflexivity|]). split.
  - rewrite <- List.app_assoc. reflexivity.
  - split; [reflexivity|]. split.
    + intros i o. destruct i; reflexivity.
    + eexists; repeat split; reflexivity.
Qed.

Lemma fetch_failure_skips_cycle_witness :
  exists l1 l2,
    run [MGet (Raise refused); MRunner] start = Some l1 /\
    sleeping l1 = true /\ lp_tasks l1 = [] /\ lp_orphans l1 = [] /\
    lp_trace l1 =
    [EvGet (Raise refused);
     EvPrint "worker loop error: All connection attempts failed"] /\
    (forall r, step (MGet r) l1 = None) /\
    (forall i o, step (MTask i o) l1 = None) /\
    run [MRunner; MRunner] l1 = Some l2 /\
    lp_runner l2 = Running runner_body /\ lp_tasks l2 = [] /\
    lp_trace l2 = (lp_trace l1 ++ [EvSleep 60])%list.
Proof.
  apply (fetch_failure_skips_cycle start refused); reflexivity.
Defined.

(** C10. A fetched monitor without the [is_enabled] field passes the
    filter of the runner, and the iteration launches its probe. *)
Theorem missing_is_enabled_is_probed (l : loop) (monitors : list monitor)
  (m : monitor) :
  lp_runner l = Running runner_body -> lp_tasks l = [] ->
  In m monitors -> mon_is_enabled m = None ->
  enabled m = true /\
  exists l',
    run [MGet (Ok monitors); MRunner] l = Some l' /\
    In (check_once m) (lp_tasks l').
Proof.
  intros Hr Ht Hin Hm.
  assert (He : enabled m = true) by (unfold enabled; rewrite Hm; reflexivity).
  split; [exact He|].
  destruct (cycle_spawn l monitors Hr Ht) as (l' & Hrun & Hts).
  exists l'. split; [exact Hrun|]. rewrite Hts.
  apply in_map, filter_In. auto.
Qed.

Lemma missing_is_enabled_is_probed_witness :
  let m := {| mon_id := 3; mon_url := "http://example.test/";
              mon_method := None; mon_timeout_ms := None;
              mon_expected_statuses := None; mon_is_enabled := None |} in
  enabled m = true /\
  exists l',
    run [MGet (Ok [m]); MRunner] start = Some l' /\
    In (check_once m) (lp_tasks l').
Proof.
  intros m.
  apply (missing_is_enabled_is_probed start [m] m);
    [reflexivity | reflexivity | left; reflexivity | reflexivity].
Defined.

(** ** The join at the end of the fan-out *)

Lemma forallb_nth_error {A : Type} (f : A -> bool) (l : list A) (i : nat)
  (x : A) :
  forallb f l = true -> nth_error l i = Some x -> f x = true.
Proof.
  revert i. induction l as [|y l IH]; intros [|i]; simpl; try discriminate.
  - intros H [= <-]. apply andb_true_iff in H. tauto.
  - intros H. apply andb_true_iff in H as [_ H]. eauto.
Qed.

Lemma existsb_update (ts : list task) (i : nat) (t t' : task) :
  nth_error ts i = Some t -> is_raised t = false ->
  existsb is_raised ts = true -> existsb is_raised (update ts i t') = true.
Proof.
  revert i. induction ts as [|u ts IH]; intros [|i]; simpl; try discriminate.
  - intros [= ->] -> H. simpl in H. rewrite H. apply orb_true_r.
  - intros Hi Ht H. apply orb_true_iff in H as [H|H].
    + rewrite H. reflexivity.
    + rewrite (IH _ Hi Ht H). apply orb_true_r.
Qed.

Lemma resume_pending (t : task) (o : io) (ev : event) (t' : task) :
  resume t o = Some (ev, t') -> is_returned t = false /\ is_raised t = false.
Proof. destruct t; simpl; try discriminate; auto. Qed.

(** A probe that moves leaves a raised sibling raised. *)
Lemma settled_resume_at (ts : list task) (i : nat) (o : io) (ev : event)
  (ts' : list task) :
  settled ts = true -> resume_at ts i o = Some (ev, ts') -> settled ts' = true.
Proof.
  unfold settled, resume_at. intros Hs.
  destruct (nth_error ts i) as [t|] eqn:Hi; [|discriminate].
  destruct (resume t o) as [[ev' t']|] eqn:Hr; [|discriminate].
  intros [= <- <-]. destruct (resume_pending _ _ _ _ Hr) as [Hret Hrai].
  apply orb_true_iff in Hs as [Hs|Hs].
  - rewrite (forallb_nth_error _ _ _ _ Hs Hi) in Hret. discriminate.
  - rewrite (existsb_update _ _ _ _ Hi Hrai Hs). apply orb_true_r.
Qed.

Lemma nth_error_raised (ts : list task) (i : nat) (e : exn) :
  nth_error ts i = Some (TRaise e) -> existsb is_raised ts = true.
Proof.
  revert i. induction ts as [|u ts IH]; intros [|i]; simpl; try discriminate.
  - intros [= ->]. reflexivity.
  - intros H. rewrite (IH _ H). apply orb_true_r.
Qed.

Lemma cycle_inv_step (mv : move) (l l' : loop) :
  cycle_inv (lp_runner l) (lp_tasks l) -> step mv l = Some l' ->
  cycle_inv (lp_runner l') (lp_tasks l').
Proof.
  destruct l as [rn ts orph tr]. cbn [lp_runner lp_tasks]. intros Hinv.
  destruct mv as [r| | |i|i o|i o]; unfold step; cbn [lp_runner lp_tasks lp_orphans lp_trace].
  - destruct Hinv; try discriminate. intros [= <-]. cbn.
    destruct r as [monitors|e]; cbn.
    + destruct (map check_once (filter enabled monitors)); constructor.
      reflexivity.
    + constructor. reflexivity.
  - destruct Hinv; intros [= <-]; cbn; constructor; assumption.
  - destruct Hinv; try discriminate.
    destruct (forallb is_returned ts) eqn:E; [|discriminate].
    intros [= <-]. cbn. constructor. unfold settled. rewrite E. reflexivity.
  - destruct Hinv; try discriminate.
    destruct (nth_error ts i) as [[|e| |]|] eqn:E; try discriminate.
    intros [= <-]. cbn. constructor. unfold settled.
    rewrite (nth_error_raised _ _ _ E). apply orb_true_r.
  - destruct (resume_at ts i o) as [[ev ts']|] eqn:E.
    2:{ destruct rn as [[]|]; discriminate. }
    assert (H : Some {| lp_runner := rn; lp_tasks := ts'; lp_orphans := orph;
                        lp_trace := tr ++ [ev] |} = Some l' ->
                cycle_inv (lp_runner l') (lp_tasks l')).
    { intros [= <-]. cbn.
      destruct Hinv; try (constructor; eauto using settled_resume_at);
        destruct i; discriminate. }
    destruct rn as [[]|]; exact H.
  - destruct (resume_at orph i o) as [[ev ts']|] eqn:E.
    2:{ destruct rn as [[]|]; discriminate. }
    assert (H : Some {| lp_runner := rn; lp_tasks := ts; lp_orphans := ts';
                        lp_trace := tr ++ [ev] |} = Some l' ->
                cycle_inv (lp_runner l') (lp_tasks l')).
    { intros [= <-]. exact Hinv. }
    destruct rn as [[]|]; exact H.
Qed.

Lemma cycle_inv_run (mvs : list move) (l l' : loop) :
  cycle_inv (lp_runner l) (lp_tasks l) -> run mvs l = Some l' ->
  cycle_inv (lp_runner l') (lp_tasks l').
Proof.
  revert l. induction mvs as [|mv mvs IH]; intros l Hinv; simpl.
  - intros [= <-]. exact Hinv.
  - destruct (step mv l) as [l1|] eqn:E; [|discriminate].
    apply IH. exact (cycle_inv_step _ _ _ Hinv E).
Qed.

(** C9. Whenever the runner is in its sleep, every probe launched in the
    iteration has returned, unless one of them has raised: the gather joins
    the probes as long as none raises. *)
Theorem gather_barrier (mvs : list move) (l : loop) :
  run mvs start = Some l -> sleeping l = true ->
  existsb is_raised (lp_tasks l) = false ->
  forallb is_returned (lp_tasks l) = true.
Proof.
  intros Hrun Hs Hno.
  assert (Hinv : cycle_inv (lp_runner l) (lp_tasks l)).
  { apply (cycle_inv_run mvs start); [constructor|exact Hrun]. }
  unfold sleeping in Hs. destruct Hinv as [| | | |ts H|]; try discriminate.
  unfold settled in H. rewrite Hno, orb_false_r in H. exact H.
Qed.

Lemma gather_barrier_witness :
  forallb is_returned (lp_tasks quiet_loop) = true.
Proof.
  apply (gather_barrier quiet_moves quiet_loop); reflexivity.
Defined.

(** C9, as stated, fails: when the report of one probe raises, the runner
    reaches its sleep while another probe of the iteration still awaits its
    response. *)
Lemma gather_raise_leaves_probe_pending :
  ~ (forall (mvs : list move) (l : loop),
       run mvs start = Some l -> sleeping l = true ->
       forallb is_done (lp_tasks l) = true).
Proof.
  intros H. specialize (H hasty_moves hasty_loop eq_refl eq_refl).
  vm_compute in H. discriminate H.
Qed.

Example hasty_loop_tasks :
  sleeping hasty_loop = true /\
  map is_done (lp_tasks hasty_loop) = [true; false] /\
  map is_raised (lp_tasks hasty_loop) = [true; false].
Proof. repeat split. Qed.

(** * Further properties of the evaluator *)

Section EvaluatorFacts.
Import PyStr PyStrFacts.

Variable status : Z.

Lemma split_nonempty (sep : ascii) (s : string) : split sep s <> [].
Proof.
  destruct s as [|c s]; simpl; [discriminate|].
  destruct (Ascii.eqb c sep); [discriminate|].
  destruct (split sep s); discriminate.
Qed.

Lemma split_app_sep (sep : ascii) (a b : string) :
  split sep (a ++ String sep b) = (split sep a ++ split sep b)%list.
Proof.
  induction a as [|c a IH]; simpl.
  - rewrite Ascii.eqb_refl. reflexivity.
  - rewrite IH. destruct (Ascii.eqb c sep); [reflexivity|].
    pose proof (split_nonempty sep a) as Hne.
    destruct (split sep a) as [|p ps]; [congruence|reflexivity].
Qed.

Lemma tokens_comma (a b : string) :
  tokens (a ++ String "," b) = (tokens a ++ tokens b)%list.
Proof. unfold tokens. rewrite split_app_sep. apply map_app. Qed.

Lemma split1_contains (sep : ascii) (p : string) :
  contains sep p = true ->
  exists a b, split1 sep p = [a; b] /\ p = a ++ String sep b /\
              contains sep a = false.
Proof.
  intros H. destruct (contains_cut _ _ H) as (a & b & -> & Ha).
  exists a, b. rewrite (split1_app _ _ _ Ha). auto.
Qed.

(** The loop over two lists of tokens: the second list is reached only when
    the first one ends without a match. *)
Lemma in_expected_loop_app (xs ys : list string) :
  in_expected_loop status (xs ++ ys) =
  match in_expected_loop status xs with
  | Ok false => in_expected_loop status ys
  | r => r
  end.
Proof.
  induction xs as [|p xs IH]; [reflexivity|].
  cbn [app in_expected_loop]. rewrite IH.
  destruct (contains "-" p) eqn:Hd.
  - destruct (split1_contains _ _ Hd) as (a & b & -> & _ & _).
    destruct (isdigit a && isdigit b); [|reflexivity].
    destruct (int a) as [lo|e]; cbn [bind]; [|reflexivity].
    destruct (lo <=? status); [|reflexivity].
    destruct (int b) as [hi|e]; cbn [bind]; [|reflexivity].
    destruct (status <=? hi); reflexivity.
  - destruct (isdigit p); [|reflexivity].
    destruct (int p) as [v|e]; cbn [bind]; [|reflexivity].
    destruct (v =? status); reflexivity.
Qed.

End EvaluatorFacts.

(** X1. A spec [a,b] is evaluated left to right: the result is that of [a]
    when [a] matches or raises, and that of [b] otherwise. *)
Theorem in_expected_across_comma (s : Z) (a b : string) :
  in_expected s (a ++ "," ++ b) =
  match in_expected s a with
  | Ok false => in_expected s b
  | r => r
  end.
Proof.
  change (a ++ "," ++ b) with (a ++ String "," b).
  unfold in_expected. fold (tokens (a ++ String "," b)) (tokens a) (tokens b).
  rewrite tokens_comma. apply in_expected_loop_app.
Qed.

(** X2. When the evaluator returns on each side of a comma taken alone,
    the order of the two sides does not matter. *)
Theorem in_expected_comma_swap (s : Z) (a b : string) :
  (exists x, in_expected s a = Ok x) -> (exists y, in_expected s b = Ok y) ->
  in_expected s (a ++ "," ++ b) = in_expected s (b ++ "," ++ a).
Proof.
  intros [x Hx] [y Hy].
  change (a ++ "," ++ b) with (a ++ String "," b).
  change (b ++ "," ++ a) with (b ++ String "," a).
  unfold in_expected in *.
  fold (tokens (a ++ String "," b)) (tokens (b ++ String "," a)).
  fold (tokens a) in Hx. fold (tokens b) in Hy.
  rewrite !tokens_comma, !in_expected_loop_app, Hx, Hy.
  destruct x, y; reflexivity.
Qed.

Lemma in_expected_comma_swap_witness :
  in_expected 404 ("200-299" ++ "," ++ "404") =
  in_expected 404 ("404" ++ "," ++ "200-299").
Proof.
  apply (in_expected_comma_swap 404 "200-299" "404");
    eexists; reflexivity.
Defined.

(** Without that condition the order matters. *)
Example in_expected_comma_order :
  in_expected 200 ("200" ++ "," ++ sup2) = Ok true /\
  in_expected 200 (sup2 ++ "," ++ "200") = Raise (ValueError (invalid_literal sup2)).
Proof. repeat split. Qed.

Section Blank.
Import PyStr PyStrFacts.

Lemma lstrip_blank (w : string) : is_blank w = true -> lstrip w = EmptyString.
Proof.
  induction w as [|c w IH]; simpl; [reflexivity|]. intros H.
  apply andb_true_iff in H as [-> H]. auto.
Qed.

Lemma lstrip_blank_app (w s : string) :
  is_blank w = true -> lstrip (w ++ s) = lstrip s.
Proof.
  induction w as [|c w IH]; simpl; [reflexivity|]. intros H.
  apply andb_true_iff in H as [-> H]. auto.
Qed.

Lemma rstrip_blank (w : string) : is_blank w = true -> rstrip w = EmptyString.
Proof.
  induction w as [|c w IH]; simpl; [reflexivity|]. intros H.
  apply andb_true_iff in H as [-> H]. rewrite (IH H). reflexivity.
Qed.

Lemma rstrip_app_blank (s w : string) :
  is_blank w = true -> rstrip (s ++ w) = rstrip s.
Proof.
  intros H. induction s as [|c s IH]; simpl.
  - apply rstrip_blank, H.
  - rewrite IH. reflexivity.
Qed.

Lemma strip_blank_app (w s : string) :
  is_blank w = true -> strip (w ++ s) = strip s.
Proof. intros H. unfold strip. rewrite lstrip_blank_app by exact H. reflexivity. Qed.

Lemma strip_app_blank (s w : string) :
  is_blank w = true -> strip (s ++ w) = strip s.
Proof.
  intros H. unfold strip. induction s as [|c s IH]; simpl.
  - rewrite (lstrip_blank _ H). reflexivity.
  - destruct (is_space c); [exact IH|].
    apply (rstrip_app_blank (String c s)), H.
Qed.

Lemma blank_no_comma (w : string) :
  is_blank w = true -> contains "," w = false.
Proof.
  intros H. destruct (contains "," w) eqn:E; [|reflexivity].
  pose proof (all_contains _ _ _ H E) as F. discriminate F.
Qed.

Lemma split_blank_app (w s : string) :
  is_blank w = true ->
  exists p ps, split "," s = p :: ps /\ split "," (w ++ s) = (w ++ p) :: ps.
Proof.
  intros H. induction w as [|c w IH]; simpl.
  - pose proof (split_nonempty "," s) as Hne.
    destruct (split "," s) as [|p ps]; [congruence|]. exists p, ps. auto.
  - simpl in H. apply andb_true_iff in H as [Hc Hw].
    destruct (IH Hw) as (p & ps & E1 & E2). exists p, ps. rewrite E2.
    destruct (Ascii.eqb c ",") eqn:Ec; [|auto].
    apply Ascii.eqb_eq in Ec. subst c. discriminate Hc.
Qed.

Lemma tokens_blank_app (w s : string) :
  is_blank w = true -> tokens (w ++ s) = tokens s.
Proof.
  intros H. unfold tokens.
  destruct (split_blank_app w s H) as (p & ps & -> & ->).
  simpl. rewrite (strip_blank_app _ _ H). reflexivity.
Qed.

Lemma split_app_blank (s w : string) :
  is_blank w = true ->
  exists init last,
    split "," s = (init ++ [last])%list /\
    split "," (s ++ w) = (init ++ [(last ++ w)%string])%list.
Proof.
  intros H. induction s as [|c s IH]; simpl.
  - exists [], EmptyString. rewrite (split_no_sep _ _ (blank_no_comma _ H)).
    auto.
  - destruct IH as (init & last & E1 & E2). rewrite E1, E2.
    destruct (Ascii.eqb c ",").
    + exists (EmptyString :: init), last. auto.
    + destruct init as [|p init]; simpl.
      * exists [], (String c last). auto.
      * exists (String c p :: init), last. auto.
Qed.

Lemma tokens_app_blank (s w : string) :
  is_blank w = true -> tokens (s ++ w) = tokens s.
Proof.
  intros H. unfold tokens.
  destruct (split_app_blank s w H) as (init & last & -> & ->).
  rewrite !map_app. simpl. rewrite (strip_app_blank _ _ H). reflexivity.
Qed.

End Blank.

(** X3. White space before and after a spec does not change its
    evaluation. *)
Theorem in_expected_surrounding_space (s : Z) (w spec w' : string) :
  is_blank w = true -> is_blank w' = true ->
  in_expected s (w ++ spec ++ w') = in_expected s spec.
Proof.
  intros Hw Hw'. unfold in_expected.
  fold (tokens (w ++ spec ++ w')) (tokens spec).
  rewrite (tokens_blank_app _ _ Hw), (tokens_app_blank _ _ Hw').
  reflexivity.
Qed.

Lemma in_expected_surrounding_space_witness :
  in_expected 204 ("  " ++ "200,204" ++ " ") = in_expected 204 "200,204".
Proof.
  apply (in_expected_surrounding_space 204 "  " "200,204" " "); reflexivity.
Defined.

Section Skipping.
Import PyStr PyStrFacts.

Variable status : Z.

Lemma no_digit_isdigit (p : string) : no_digit p = true -> isdigit p = false.
Proof.
  unfold no_digit, isdigit. destruct p as [|c p]; simpl; [reflexivity|].
  intros H. apply andb_true_iff in H as [Hc _].
  apply negb_true_iff in Hc. rewrite Hc. reflexivity.
Qed.

Lemma in_expected_loop_no_digit (parts : list string) :
  Forall (fun p => no_digit p = true) parts ->
  in_expected_loop status parts = Ok false.
Proof.
  induction 1 as [|p parts Hp _ IH]; [reflexivity|].
  cbn [in_expected_loop]. rewrite IH.
  destruct (contains "-" p) eqn:Hd.
  - destruct (split1_contains _ _ Hd) as (a & b & -> & -> & _).
    unfold no_digit in Hp. rewrite all_app in Hp.
    apply andb_true_iff in Hp as [Ha _].
    rewrite (no_digit_isdigit a Ha). reflexivity.
  - rewrite (no_digit_isdigit p Hp). reflexivity.
Qed.

Lemma digit_value_nonneg (c : ascii) : is_decimal c = true -> 0 <= digit_value c.
Proof.
  unfold is_decimal, digit_value. cbv zeta. intros H.
  apply andb_true_iff in H as [H _]. apply N.leb_le, N2Z.inj_le in H.
  change (Z.of_N 48) with 48 in H. lia.
Qed.

Lemma decimal_value_nonneg (s : string) (acc : Z) :
  0 <= acc -> all is_decimal s = true -> 0 <= decimal_value acc s.
Proof.
  revert acc. induction s as [|c s IH]; cbn [decimal_value all];
    intros acc Hacc H; [exact Hacc|].
  apply andb_true_iff in H as [Hc Hs]. apply IH; [|exact Hs].
  pose proof (digit_value_nonneg c Hc). lia.
Qed.

Lemma int_nonneg (s : string) (v : Z) : int s = Ok v -> 0 <= v.
Proof.
  intros H. apply int_value in H as [E ->].
  unfold isdecimal in E. apply andb_true_iff in E as [_ E].
  apply decimal_value_nonneg; [lia|exact E].
Qed.

Lemma in_expected_loop_negative (parts : list string) :
  status < 0 -> in_expected_loop status parts <> Ok true.
Proof.
  intros Hneg. induction parts as [|p parts IH]; [discriminate|].
  cbn [in_expected_loop].
  destruct (contains "-" p) eqn:Hd.
  - destruct (split1_contains _ _ Hd) as (a & b & -> & _ & _).
    destruct (isdigit a && isdigit b); [|exact IH].
    destruct (int a) as [lo|e] eqn:Ea; cbn [bind]; [|discriminate].
    apply int_nonneg in Ea.
    destruct (lo <=? status) eqn:E; [|exact IH].
    apply Z.leb_le in E. lia.
  - destruct (isdigit p); [|exact IH].
    destruct (int p) as [v|e] eqn:Ev; cbn [bind]; [|discriminate].
    apply int_nonneg in Ev.
    destruct (v =? status) eqn:E; [|exact IH].
    apply Z.eqb_eq in E. lia.
Qed.

Lemma int_raises (lit : string) (e : exn) :
  int lit = Raise e ->
  (isdecimal lit = false /\ e = ValueError (invalid_literal lit)) \/
  ((int_max_str_digits < leading_decimals lit)%nat /\
   e = ValueError (exceeds_limit (leading_decimals lit))).
Proof.
  unfold int. destruct (_ <? _)%nat eqn:L.
  - intros [= <-]. right. apply Nat.ltb_lt in L. auto.
  - destruct (isdecimal lit); [discriminate|]. intros [= <-]. left. auto.
Qed.

Lemma in_expected_loop_raises (parts : list string) (e : exn) :
  in_expected_loop status parts = Raise e ->
  exists lit,
    isdigit lit = true /\
    ((isdecimal lit = false /\ e = ValueError (invalid_literal lit)) \/
     ((int_max_str_digits < leading_decimals lit)%nat /\
      e = ValueError (exceeds_limit (leading_decimals lit)))).
Proof.
  induction parts as [|p parts IH]; [discriminate|].
  cbn [in_expected_loop].
  destruct (contains "-" p) eqn:Hd.
  - destruct (split1_contains _ _ Hd) as (a & b & -> & _ & _).
    destruct (isdigit a && isdigit b) eqn:Hab; [|exact IH].
    apply andb_true_iff in Hab as [Ha Hb].
    destruct (int a) as [lo|e'] eqn:Ea; cbn [bind].
    + destruct (lo <=? status); [|exact IH].
      destruct (int b) as [hi|e''] eqn:Eb; cbn [bind].
      * destruct (status <=? hi); [discriminate|exact IH].
      * intros [= <-]. exists b. split; [exact Hb|apply int_raises, Eb].
    + intros [= <-]. exists a. split; [exact Ha|apply int_raises, Ea].
  - destruct (isdigit p) eqn:Hp; [|exact IH].
    destruct (int p) as [v|e'] eqn:Ev; cbn [bind].
    + destruct (v =? status); [discriminate|exact IH].
    + intros [= <-]. exists p. split; [exact Hp|apply int_raises, Ev].
Qed.

End Skipping.

(** X4. A spec without any digit character (empty, blank, words, stray
    commas and dashes) matches no status and does not raise. *)
Theorem in_expected_no_digit (s : Z) (spec : string) :
  no_digit spec = true -> in_expected s spec = Ok false.
Proof.
  intros H. apply in_expected_loop_no_digit. unfold tokens.
  apply Forall_map. eapply Forall_impl; [|apply all_split, H].
  intros p. apply all_strip.
Qed.

Lemma in_expected_no_digit_witness :
  in_expected 200 " ok, -- ,up-down," = Ok false.
Proof. apply (in_expected_no_digit 200 " ok, -- ,up-down,"). reflexivity. Defined.

(** X5. A negative status is never matched, whatever the spec. *)
Theorem in_expected_negative (s : Z) (spec : string) :
  s < 0 -> in_expected s spec <> Ok true.
Proof. intros H. apply in_expected_loop_negative, H. Qed.

Lemma in_expected_negative_witness : in_expected (-1) "0-399,-1" <> Ok true.
Proof. apply (in_expected_negative (-1) "0-399,-1"). lia. Defined.

(** X6. A token with two or more dashes, such as a range with a negative
    bound, is skipped: alone it gives false and does not raise. *)
Theorem in_expected_two_dashes (s : Z) (a b c : string) :
  PyStr.contains "," a = false -> PyStr.contains "," b = false ->
  PyStr.contains "," c = false ->
  in_expected s (a ++ "-" ++ b ++ "-" ++ c) = Ok false.
Proof.
  intros Ha Hb Hc.
  change (a ++ "-" ++ b ++ "-" ++ c) with (a ++ String "-" (b ++ String "-" c)).
  destruct (range_spec_cases s a (b ++ String "-" c)) as [[_ E]|[_ E]];
    try exact E; try exact Ha.
  - rewrite PyStrFacts.contains_app. simpl. rewrite Hb, Hc. reflexivity.
  - rewrite E. apply range_token_not_digit. right.
    rewrite PyStrFacts.rstrip_app by reflexivity.
    apply (PyStrFacts.isdigit_no "-"); [reflexivity|].
    rewrite PyStrFacts.contains_app. simpl. apply orb_true_r.
Qed.

Lemma in_expected_two_dashes_witness :
  in_expected 5 ("" ++ "-" ++ "5" ++ "-" ++ "10") = Ok false.
Proof.
  apply (in_expected_two_dashes 5 EmptyString "5" "10"); reflexivity.
Defined.

(** X7. The evaluator raises nothing but a [ValueError] of [int] on a
    literal that [isdigit] accepts: the invalid literal one when the
    literal is not decimal, or the one of the digit cap when more than 4300
    decimal digits head it.  It raises only on a spec that holds a
    superscript digit or a token longer than the cap, and the unpacking of
    a split range never fails. *)
Theorem in_expected_raises_only (s : Z) (spec : string) (e : exn) :
  in_expected s spec = Raise e ->
  ~ (decimal_digits_only spec = true /\ short_tokens spec = true) /\
  exists lit,
    PyStr.isdigit lit = true /\
    ((PyStr.isdecimal lit = false /\ e = ValueError (invalid_literal lit)) \/
     ((PyStr.int_max_str_digits < PyStr.leading_decimals lit)%nat /\
      e = ValueError (PyStr.exceeds_limit (PyStr.leading_decimals lit)))).
Proof.
  intros H. split.
  - intros [E F]. rewrite (in_expected_matches s spec E F) in H.
    discriminate H.
  - exact (in_expected_loop_raises s _ e H).
Qed.

Lemma in_expected_raises_only_witness :
  ~ (decimal_digits_only ("404," ++ sup2) = true /\
     short_tokens ("404," ++ sup2) = true) /\
  exists lit,
    PyStr.isdigit lit = true /\
    ((PyStr.isdecimal lit = false /\
      ValueError (invalid_literal sup2) = ValueError (invalid_literal lit)) \/
     ((PyStr.int_max_str_digits < PyStr.leading_decimals lit)%nat /\
      ValueError (invalid_literal sup2) =
      ValueError (PyStr.exceeds_limit (PyStr.leading_decimals lit)))).
Proof.
  apply (in_expected_raises_only 200 ("404," ++ sup2)). reflexivity.
Defined.

Example in_expected_digit_limit :
  in_expected 200 (replicate 4301 "1") =
  Raise (ValueError (PyStr.exceeds_limit 4301)) /\
  in_expected 200 (replicate 4300 "0" ++ ",200") = Ok true /\
  in_expected 200 (replicate 4301 "1" ++ sup2) =
  Raise (ValueError (PyStr.exceeds_limit 4301)) /\
  in_expected 200 (replicate 199 "1" ++ sup2) =
  Raise (ValueError
           ("invalid literal for int() with base 10: '" ++ replicate 199 "1")).
Proof. repeat split; vm_compute; reflexivity. Qed.

(** X8. On a spec without superscript digits and without a token longer
    than 4300 characters, the evaluator returns what the specification's
    [matches] says: true exactly when some trimmed token is a decimal
    integer equal to the status, or a pair of decimal integers around a
    dash that encloses it. *)
Theorem in_expected_refines_matches (s : Z) (spec : string) :
  decimal_digits_only spec = true -> short_tokens spec = true ->
  in_expected s spec = Ok (matches s spec) /\
  (matches s spec = true <->
   exists p, In p (tokens spec) /\ token_matches s p = true).
Proof.
  intros H F. split; [apply in_expected_matches; assumption|].
  unfold matches. apply existsb_exists.
Qed.

Lemma in_expected_refines_matches_witness :
  in_expected 301 "200-299, 301 ,abc" = Ok (matches 301 "200-299, 301 ,abc") /\
  (matches 301 "200-299, 301 ,abc" = true <->
   exists p, In p (tokens "200-299, 301 ,abc") /\ token_matches 301 p = true).
Proof.
  apply (in_expected_refines_matches 301 "200-299, 301 ,abc"); reflexivity.
Defined.

(** X9. A comma-separated list of decimal integers of at most 4300 digits
    each matches exactly the statuses it lists. *)
Theorem in_expected_listed (s : Z) (ds : list string) :
  ds <> [] -> Forall (fun d => PyStr.isdecimal d = true) ds ->
  forallb fits_int ds = true ->
  exists b,
    in_expected s (join "," ds) = Ok b /\
    (b = true <-> exists d, In d ds /\ PyStr.decimal_value 0 d = s).
Proof.
  intros Hne H F. eexists.
  split; [apply in_expected_exact_list; assumption|].
  rewrite existsb_exists. split; intros (d & Hd & E); exists d;
    (split; [exact Hd|]); apply Z.eqb_eq; exact E.
Qed.

Lemma in_expected_listed_witness :
  exists b,
    in_expected 204 (join "," ["200"; "201"; "204"]) = Ok b /\
    (b = true <->
     exists d, In d ["200"; "201"; "204"] /\ PyStr.decimal_value 0 d = 204).
Proof.
  apply (in_expected_listed 204 ["200"; "201"; "204"]);
    [discriminate | repeat constructor | reflexivity].
Defined.

(** * Further properties of the probe *)

(** X10. Whatever the outcome of the request, the check that [check_once]
    posts carries the monitor's id; it has a status code exactly when a
    response was received; it is [ok] only when the evaluator accepted that
    status, and then has no error text; without a status code it is not
    [ok] and has an error text; an error text has at most 300 characters. *)
Theorem check_once_check_invariant (mon : monitor) (resp : result Z)
  (c : check) :
  check_of mon resp = Some c ->
  monitor_id c = mon_id mon /\
  status_code c = match resp with Ok st => Some st | Raise _ => None end /\
  (ok c = true ->
   exists st, resp = Ok st /\ error_reason c = None /\
     in_expected st (get (mon_expected_statuses mon) "200-399") = Ok true) /\
  (status_code c = None -> ok c = false /\ error_reason c <> None) /\
  (forall reason, error_reason c = Some reason ->
     (String.length reason <= 300)%nat).
Proof.
  assert (Hlen : forall e reason,
            Some (PyStr.take 300 (str_exn e)) = Some reason ->
            (String.length reason <= 300)%nat).
  { intros e reason H.
    assert (E : reason = PyStr.take 300 (str_exn e)) by congruence.
    rewrite E. apply length_take. }
  destruct resp as [st|e].
  - destruct (in_expected st (get (mon_expected_statuses mon) "200-399"))
      as [b|e] eqn:E.
    + rewrite (check_of_response _ _ _ E). intros [= <-].
      cbn [monitor_id status_code ok error_reason].
      split; [reflexivity|]. split; [reflexivity|]. split; [|split].
      * intros ->. exists st. auto.
      * discriminate.
      * discriminate.
    + rewrite (check_of_evaluator_raises _ _ _ E). intros [= <-].
      cbn [monitor_id status_code ok error_reason].
      split; [reflexivity|]. split; [reflexivity|]. split; [|split].
      * discriminate.
      * discriminate.
      * apply Hlen.
  - rewrite check_of_failure. intros [= <-].
    cbn [monitor_id status_code ok error_reason].
    split; [reflexivity|]. split; [reflexivity|]. split; [|split].
    + discriminate.
    + intros _. split; [reflexivity|discriminate].
    + apply Hlen.
Qed.

Lemma check_once_check_invariant_witness :
  let c := {| monitor_id := 1; status_code := Some 404; ok := false;
              error_reason := None |} in
  monitor_id c = 1 /\
  status_code c = Some 404 /\
  (ok c = true ->
   exists st, Ok 404 = Ok st /\ error_reason c = None /\
     in_expected st "200-399" = Ok true) /\
  (status_code c = None -> ok c = false /\ error_reason c <> None) /\
  (forall reason, error_reason c = Some reason ->
     (String.length reason <= 300)%nat).
Proof.
  intros c. apply (check_once_check_invariant (plain_monitor 1) (Ok 404) c).
  reflexivity.
Defined.

Lemma in_expected_default (st : Z) :
  in_expected st "200-399" = Ok ((200 <=? st) && (st <=? 399)).
Proof.
  rewrite in_expected_one_token by reflexivity.
  change (PyStr.strip "200-399") with ("200" ++ String "-" "399").
  rewrite in_expected_loop_range by reflexivity.
  apply (range_token_decimal st "200" "399"); reflexivity.
Qed.

(** X11. For a monitor without [expected_statuses], or with the store's
    default ["200-399"], a received status is reported [ok] exactly when it
    lies between 200 and 399, and without error text. *)
Theorem check_once_default_spec (mon : monitor) (st : Z) :
  get (mon_expected_statuses mon) "200-399" = "200-399" ->
  check_of mon (Ok st) =
  Some {| monitor_id := mon_id mon; status_code := Some st;
          ok := (200 <=? st) && (st <=? 399); error_reason := None |}.
Proof.
  intros H. apply check_of_response. rewrite H. apply in_expected_default.
Qed.

Lemma check_once_default_spec_witness :
  check_of {| mon_id := 3; mon_url := "http://example.test/";
              mon_method := None; mon_timeout_ms := None;
              mon_expected_statuses := None; mon_is_enabled := None |}
    (Ok 302) =
  Some {| monitor_id := 3; status_code := Some 302;
          ok := (200 <=? 302) && (302 <=? 399); error_reason := None |}.
Proof.
  apply (check_once_default_spec
           {| mon_id := 3; mon_url := "http://example.test/";
              mon_method := None; mon_timeout_ms := None;
              mon_expected_statuses := None; mon_is_enabled := None |} 302).
  reflexivity.
Defined.

(** * Further properties of the loop *)

Lemma reachable_cycle_inv (mvs : list move) (l : loop) :
  run mvs start = Some l -> cycle_inv (lp_runner l) (lp_tasks l).
Proof. apply (cycle_inv_run mvs start). constructor. Qed.

Lemma first_unreturned (ts : list task) :
  forallb is_returned ts = false ->
  exists i t, nth_error ts i = Some t /\ is_returned t = false.
Proof.
  induction ts as [|t ts IH]; simpl; [discriminate|].
  destruct (is_returned t) eqn:E; simpl.
  - intros H. destruct (IH H) as (i & u & Hi & Hu). exists (S i), u. auto.
  - intros _. exists 0%nat, t. auto.
Qed.

(** X12. The loop never halts: in every state it can reach, either the
    runner has a move of its own, or it waits in the gather for a probe
    that is still awaiting the HTTP client. *)
Theorem loop_never_stuck (mvs : list move) (l : loop) :
  run mvs start = Some l ->
  runner_can_move l \/
  (exists k, lp_runner l = Joining k) /\
  (exists i o l', step (MTask i o) l = Some l').
Proof.
  intros Hrun. pose proof (reachable_cycle_inv mvs l Hrun) as Hinv.
  destruct l as [rn ts orph tr]. cbn [lp_runner lp_tasks] in Hinv.
  destruct Hinv as [|ts'|ts| | |].
  - left. exists (MGet (Ok [])). eexists. split; [reflexivity|exact I].
  - left. exists MRunner. eexists. split; [reflexivity|exact I].
  - destruct (forallb is_returned ts) eqn:E.
    + left. exists MJoin. eexists. unfold step. cbn. rewrite E.
      split; [reflexivity|exact I].
    + destruct (first_unreturned ts E) as (i & t & Hi & Ht).
      destruct t as [|e|rq k|c k]; [discriminate Ht| | |].
      * left. exists (MJoinRaise i). eexists. unfold step. cbn. rewrite Hi.
        split; [reflexivity|exact I].
      * right. split; [eexists; reflexivity|].
        exists i, (IoResponse (Ok 200)). eexists.
        unfold step, resume_at. cbn. rewrite Hi. reflexivity.
      * right. split; [eexists; reflexivity|].
        exists i, (IoPosted (Ok tt)). eexists.
        unfold step, resume_at. cbn. rewrite Hi. reflexivity.
  - left. exists MRunner. eexists. split; [reflexivity|exact I].
  - left. exists MRunner. eexists. split; [reflexivity|exact I].
  - left. exists MRunner. eexists. split; [reflexivity|exact I].
Qed.

Lemma loop_never_stuck_witness :
  runner_can_move hasty_loop \/
  (exists k, lp_runner hasty_loop = Joining k) /\
  (exists i o l', step (MTask i o) hasty_loop = Some l').
Proof. apply (loop_never_stuck hasty_moves hasty_loop). reflexivity. Defined.

Lemma phases_app (ph : phase) (tr : list event) (ev : event) :
  phases ph (tr ++ [ev]) =
  match phases ph tr with
  | Some ph' => phase_step ph' ev
  | None => None
  end.
Proof.
  revert ph. induction tr as [|e tr IH]; intros ph; simpl.
  - destruct (phase_step ph ev); reflexivity.
  - destruct (phase_step ph e); [apply IH|reflexivity].
Qed.

Lemma phase_step_probe (ph : phase) (ts : list task) (i : nat) (o : io)
  (ev : event) (ts' : list task) :
  resume_at ts i o = Some (ev, ts') -> phase_step ph ev = Some ph.
Proof.
  unfold resume_at. destruct (nth_error ts i) as [t|]; [|discriminate].
  destruct t, o; cbn; try discriminate; intros [= <- _]; reflexivity.
Qed.

Lemma phase_inv_step (mv : move) (l l' : loop) (ph : phase) :
  phase_inv (lp_runner l) ph -> phases BeforeFetch (lp_trace l) = Some ph ->
  step mv l = Some l' ->
  exists ph',
    phase_inv (lp_runner l') ph' /\
    phases BeforeFetch (lp_trace l') = Some ph'.
Proof.
  destruct l as [rn ts orph tr]. cbn [lp_runner lp_trace]. intros Hinv Htr.
  destruct mv as [r| | |i|i o|i o]; unfold step;
    cbn [lp_runner lp_tasks lp_orphans lp_trace].
  - destruct Hinv; try discriminate. intros [= <-]. cbn.
    rewrite phases_app, Htr. cbn. exists Fetched. split; [|reflexivity].
    destruct r as [monitors|e]; cbn.
    + destruct (map check_once (filter enabled monitors)); constructor.
    + constructor.
  - destruct Hinv; intros [= <-]; cbn; try rewrite phases_app, Htr; cbn;
      eexists; (split; [|reflexivity || eassumption]); constructor.
  - destruct Hinv; try discriminate.
    destruct (forallb is_returned ts); [|discriminate].
    intros [= <-]. cbn. exists Fetched. split; [constructor|exact Htr].
  - destruct Hinv; try discriminate.
    destruct (nth_error ts i) as [[|e| |]|]; try discriminate.
    intros [= <-]. cbn. exists Fetched. split; [constructor|exact Htr].
  - destruct (resume_at ts i o) as [[ev ts']|] eqn:E.
    2:{ destruct rn as [[]|]; discriminate. }
    assert (H : Some {| lp_runner := rn; lp_tasks := ts'; lp_orphans := orph;
                        lp_trace := tr ++ [ev] |} = Some l' ->
                exists ph',
                  phase_inv (lp_runner l') ph' /\
                  phases BeforeFetch (lp_trace l') = Some ph').
    { intros [= <-]. cbn. exists ph. split; [exact Hinv|].
      rewrite phases_app, Htr. exact (phase_step_probe ph _ _ _ _ _ E). }
    destruct rn as [[]|]; exact H.
  - destruct (resume_at orph i o) as [[ev ts']|] eqn:E.
    2:{ destruct rn as [[]|]; discriminate. }
    assert (H : Some {| lp_runner := rn; lp_tasks := ts; lp_orphans := ts';
                        lp_trace := tr ++ [ev] |} = Some l' ->
                exists ph',
                  phase_inv (lp_runner l') ph' /\
                  phases BeforeFetch (lp_trace l') = Some ph').
    { intros [= <-]. cbn. exists ph. split; [exact Hinv|].
      rewrite phases_app, Htr. exact (phase_step_probe ph _ _ _ _ _ E). }
    destruct rn as [[]|]; exact H.
Qed.

Lemma phase_inv_run (mvs : list move) (l l' : loop) (ph : phase) :
  phase_inv (lp_runner l) ph -> phases BeforeFetch (lp_trace l) = Some ph ->
  run mvs l = Some l' ->
  exists ph',
    phase_inv (lp_runner l') ph' /\
    phases BeforeFetch (lp_trace l') = Some ph'.
Proof.
  revert l ph. induction mvs as [|mv mvs IH]; intros l ph Hinv Htr; simpl.
  - intros [= <-]. eauto.
  - destruct (step mv l) as [l1|] eqn:E; [|discriminate].
    destruct (phase_inv_step _ _ _ _ Hinv Htr E) as (ph1 & H1 & H2).
    apply (IH l1 ph1); assumption.
Qed.

(** X13. In every run the events of the runner come in the order of an
    iteration: a fetch, at most one print, one sleep of 60 seconds, and
    again.  There are never two fetches without a sleep between them, nor
    two sleeps or two prints without a fetch between them. *)
Theorem runner_events_in_order (mvs : list move) (l : loop) :
  run mvs start = Some l ->
  exists ph, phases BeforeFetch (lp_trace l) = Some ph.
Proof.
  intros H.
  destruct (phase_inv_run mvs start l BeforeFetch) as (ph & _ & Hph);
    [constructor|reflexivity|exact H|].
  exists ph. exact Hph.
Qed.

Lemma runner_events_in_order_witness :
  exists ph, phases BeforeFetch (lp_trace hasty_loop) = Some ph.
Proof. apply (runner_events_in_order hasty_moves hasty_loop). reflexivity. Defined.

Example phases_rejects :
  phases BeforeFetch [EvGet (Ok []); EvSleep 60; EvSleep 60] = None /\
  phases BeforeFetch [EvGet (Ok []); EvGet (Ok [])] = None /\
  phases BeforeFetch [EvGet (Ok []); EvSleep 30] = None /\
  phases BeforeFetch [EvPrint "worker loop error: "] = None.
Proof. repeat split. Qed.

(** ** Every request and report belongs to a fetched monitor *)

Lemma fetched_app (tr tr' : list event) (m : monitor) :
  fetched tr m -> fetched (tr ++ tr') m.
Proof.
  intros (ms & H1 & H2). exists ms. split; [|exact H2].
  apply in_or_app. left. exact H1.
Qed.

Lemma owned_app (tr tr' : list event) (t : task) :
  owned tr t -> owned (tr ++ tr') t.
Proof. intros (m & H1 & H2). exists m. split; [apply fetched_app, H1|exact H2]. Qed.

Lemma event_owned_app (tr tr' : list event) (ev : event) :
  event_owned tr ev -> event_owned (tr ++ tr') ev.
Proof.
  destruct ev; cbn; try exact (fun H => H);
    intros (m & H1 & H2); exists m; (split; [apply fetched_app, H1|exact H2]).
Qed.

Lemma Forall_owned_app (tr tr' : list event) (ts : list task) :
  Forall (owned tr) ts -> Forall (owned (tr ++ tr')) ts.
Proof. apply Forall_impl. intros t. apply owned_app. Qed.

Lemma trace_owned_snoc (tr : list event) (ev : event) :
  Forall (event_owned tr) tr -> event_owned (tr ++ [ev]) ev ->
  Forall (event_owned (tr ++ [ev])) (tr ++ [ev]).
Proof.
  intros H Hev. apply Forall_app. split.
  - revert H. apply Forall_impl. intros e. apply event_owned_app.
  - constructor; [exact Hev|constructor].
Qed.

Lemma check_of_monitor_id (m : monitor) (r : result Z) (c : check) :
  check_of m r = Some c -> monitor_id c = mon_id m.
Proof.
  destruct r as [st|e].
  - destruct (in_expected st (get (mon_expected_statuses m) "200-399"))
      as [b|e] eqn:E.
    + rewrite (check_of_response _ _ _ E). intros [= <-]. reflexivity.
    + rewrite (check_of_evaluator_raises _ _ _ E). intros [= <-]. reflexivity.
  - rewrite check_of_failure. intros [= <-]. reflexivity.
Qed.

(** A probe that moves stays a probe of its monitor, and its event is
    one of that monitor. *)
Lemma probe_of_resume (tr : list event) (m : monitor) (t : task) (o : io)
  (ev : event) (t' : task) :
  fetched tr m -> probe_of m t -> resume t o = Some (ev, t') ->
  probe_of m t' /\ event_owned tr ev.
Proof.
  intros Hm Hp. destruct Hp as [|r c Hc| |e].
  - destruct (check_once_shape m) as (rq & k & E & Hk).
    assert (Hurl : req_url rq = mon_url m).
    { unfold check_once in E. injection E as <- _. reflexivity. }
    rewrite E. destruct o as [r|p]; cbn; [|discriminate].
    intros [= <- <-]. destruct (Hk r) as (c & Hc & ->).
    split; [exact (probe_post m r c Hc)|]. exists m. auto.
  - destruct o as [r'|p]; cbn; [discriminate|]. intros [= <- <-].
    split; [destruct p; constructor|].
    exists m. split; [exact Hm|]. exact (check_of_monitor_id _ _ _ Hc).
  - discriminate.
  - discriminate.
Qed.

Lemma Forall_update {A : Type} (P : A -> Prop) (l : list A) (i : nat) (x : A) :
  Forall P l -> P x -> Forall P (update l i x).
Proof.
  intros H Hx. revert i. induction H as [|y l Hy Hl IH]; intros i; simpl.
  - constructor.
  - destruct i; constructor; auto.
Qed.

Lemma owned_resume_at (tr : list event) (ts : list task) (i : nat) (o : io)
  (ev : event) (ts' : list task) :
  Forall (owned tr) ts -> resume_at ts i o = Some (ev, ts') ->
  Forall (owned (tr ++ [ev])) ts' /\ event_owned (tr ++ [ev]) ev.
Proof.
  unfold resume_at. intros Hall.
  destruct (nth_error ts i) as [t|] eqn:Hi; [|discriminate].
  destruct (resume t o) as [[ev' t']|] eqn:Hr; [|discriminate].
  intros [= <- <-].
  assert (Ht : owned tr t).
  { rewrite Forall_forall in Hall. apply Hall. eapply nth_error_In, Hi. }
  destruct Ht as (m & Hm & Hp).
  destruct (probe_of_resume tr m t o ev' t' Hm Hp Hr) as [Hp' Hev].
  split; [|apply event_owned_app, Hev].
  apply Forall_update; [apply Forall_owned_app, Hall|].
  exists m. split; [apply fetched_app, Hm|exact Hp'].
Qed.

Lemma gathered_owned (tr : list event) (ms : list monitor) :
  Forall (owned (tr ++ [EvGet (Ok ms)])) (map check_once (filter enabled ms)).
Proof.
  apply Forall_map, Forall_forall. intros m Hm.
  apply filter_In in Hm as [Hin Hen].
  exists m. split; [|constructor].
  exists ms. split; [|auto]. apply in_or_app. right. left. reflexivity.
Qed.

Lemma loop_owned_step (mv : move) (l l' : loop) :
  loop_owned l -> step mv l = Some l' -> loop_owned l'.
Proof.
  intros [Hc Hg Ht Ho Htr] Hstep.
  pose proof (cycle_inv_step mv l l' Hc Hstep) as Hc'.
  destruct l as [rn ts orph tr].
  cbn [lp_runner lp_tasks lp_orphans lp_trace] in *.
  destruct mv as [r| | |i|i o|i o]; unfold step in Hstep;
    cbn [lp_runner lp_tasks lp_orphans lp_trace] in Hstep.
  - destruct Hc; try discriminate. unfold runner_body in Hstep.
    injection Hstep as <-.
    constructor; cbn [lp_runner lp_tasks lp_orphans lp_trace];
      [exact Hc' | | constructor | apply Forall_owned_app, Ho
       | apply trace_owned_snoc; [exact Htr|exact I]].
    destruct r as [monitors|e]; cbn; [|exact I].
    pose proof (gathered_owned tr monitors) as G.
    destruct (map check_once (filter enabled monitors)); [exact I|exact G].
  - destruct Hc; cbn in Hstep; try discriminate; injection Hstep as <-;
      constructor; cbn [lp_runner lp_tasks lp_orphans lp_trace];
      try exact Hc'; try exact I; try constructor;
      try (apply Forall_owned_app; assumption);
      try (apply trace_owned_snoc; [exact Htr|exact I]);
      try assumption;
      try (apply Forall_app; split; assumption).
  - destruct Hc; try discriminate.
    destruct (forallb is_returned ts); [|discriminate].
    injection Hstep as <-. constructor; cbn; try assumption; exact I.
  - destruct Hc; try discriminate.
    destruct (nth_error ts i) as [[|e| |]|]; try discriminate.
    injection Hstep as <-. constructor; cbn; try assumption; exact I.
  - destruct (resume_at ts i o) as [[ev ts']|] eqn:E.
    2:{ destruct rn as [[]|]; discriminate. }
    assert (H : Some {| lp_runner := rn; lp_tasks := ts'; lp_orphans := orph;
                        lp_trace := tr ++ [ev] |} = Some l')
      by (destruct rn as [[]|]; exact Hstep).
    injection H as <-. clear Hstep.
    destruct (owned_resume_at tr ts i o ev ts' Ht E) as [Hts' Hev].
    constructor; cbn [lp_runner lp_tasks lp_orphans lp_trace];
      [exact Hc' | | exact Hts' | apply Forall_owned_app, Ho
       | apply trace_owned_snoc; assumption].
    destruct rn as [[]|]; try exact I. apply Forall_owned_app, Hg.
  - destruct (resume_at orph i o) as [[ev ts']|] eqn:E.
    2:{ destruct rn as [[]|]; discriminate. }
    assert (H : Some {| lp_runner := rn; lp_tasks := ts; lp_orphans := ts';
                        lp_trace := tr ++ [ev] |} = Some l')
      by (destruct rn as [[]|]; exact Hstep).
    injection H as <-. clear Hstep.
    destruct (owned_resume_at tr orph i o ev ts' Ho E) as [Hts' Hev].
    constructor; cbn [lp_runner lp_tasks lp_orphans lp_trace];
      [exact Hc' | | apply Forall_owned_app, Ht | exact Hts'
       | apply trace_owned_snoc; assumption].
    destruct rn as [[]|]; try exact I. apply Forall_owned_app, Hg.
Qed.

Lemma loop_owned_run (mvs : list move) (l l' : loop) :
  loop_owned l -> run mvs l = Some l' -> loop_owned l'.
Proof.
  revert l. induction mvs as [|mv mvs IH]; intros l Hl; simpl.
  - intros [= <-]. exact Hl.
  - destruct (step mv l) as [l1|] eqn:E; [|discriminate].
    apply IH. exact (loop_owned_step _ _ _ Hl E).
Qed.

Lemma loop_owned_start : loop_owned start.
Proof. constructor; cbn; constructor. Qed.

(** X14. In every run, each request goes to the URL of a monitor that a
    fetch of the run returned and whose [is_enabled] is not false, and each
    posted check bears the id of such a monitor: a monitor that was never
    fetched, or that is disabled, gets neither. *)
Theorem probes_only_fetched_enabled (mvs : list move) (l : loop) :
  run mvs start = Some l ->
  (forall rq r, In (EvRequest rq r) (lp_trace l) ->
     exists ms m, In (EvGet (Ok ms)) (lp_trace l) /\ In m ms /\
       mon_is_enabled m <> Some false /\ req_url rq = mon_url m) /\
  (forall c p, In (EvPost c p) (lp_trace l) ->
     exists ms m, In (EvGet (Ok ms)) (lp_trace l) /\ In m ms /\
       mon_is_enabled m <> Some false /\ monitor_id c = mon_id m).
Proof.
  intros Hrun.
  destruct (loop_owned_run mvs start l loop_owned_start Hrun) as [_ _ _ _ Htr].
  rewrite Forall_forall in Htr.
  assert (Hen : forall m, enabled m = true -> mon_is_enabled m <> Some false).
  { intros m H E. unfold enabled in H. rewrite E in H. discriminate H. }
  split.
  - intros rq r Hin. destruct (Htr _ Hin) as (m & (ms & H1 & H2 & H3) & H4).
    exists ms, m. auto.
  - intros c p Hin. destruct (Htr _ Hin) as (m & (ms & H1 & H2 & H3) & H4).
    exists ms, m. auto.
Qed.

Lemma probes_only_fetched_enabled_witness :
  (forall rq r, In (EvRequest rq r) (lp_trace hasty_loop) ->
     exists ms m, In (EvGet (Ok ms)) (lp_trace hasty_loop) /\ In m ms /\
       mon_is_enabled m <> Some false /\ req_url rq = mon_url m) /\
  (forall c p, In (EvPost c p) (lp_trace hasty_loop) ->
     exists ms m, In (EvGet (Ok ms)) (lp_trace hasty_loop) /\ In m ms /\
       mon_is_enabled m <> Some false /\ monitor_id c = mon_id m).
Proof.
  apply (probes_only_fetched_enabled hasty_moves hasty_loop). reflexivity.
Defined.

(** * Properties of the store API *)

Section OrderBy.

Context {A : Type} (key : A -> Z).

Lemma insert_desc_perm (x : A) (l : list A) :
  Permutation (insert_desc key x l) (x :: l).
Proof.
  induction l as [|y l IH]; simpl; [reflexivity|].
  destruct (key y <? key x); [reflexivity|].
  rewrite IH. apply perm_swap.
Qed.

Lemma order_by_desc_perm (l : list A) : Permutation (order_by_desc key l) l.
Proof.
  induction l as [|x l IH]; simpl; [reflexivity|].
  rewrite insert_desc_perm. constructor. exact IH.
Qed.

Lemma insert_desc_sorted (x : A) (l : list A) :
  StronglySorted (desc key) l -> StronglySorted (desc key) (insert_desc key x l).
Proof.
  induction 1 as [|y l Hl IH Hy]; simpl.
  - repeat constructor.
  - destruct (key y <? key x) eqn:E.
    + apply Z.ltb_lt in E. constructor; [constructor; assumption|].
      constructor; [unfold desc; lia|].
      revert Hy. apply Forall_impl. unfold desc. intros z Hz. lia.
    + apply Z.ltb_ge in E. constructor; [exact IH|].
      apply (Permutation_Forall (Permutation_sym (insert_desc_perm x l))).
      constructor; [exact E|exact Hy].
Qed.

Lemma order_by_desc_sorted (l : list A) :
  StronglySorted (desc key) (order_by_desc key l).
Proof.
  induction l as [|x l IH]; simpl; [constructor|].
  apply insert_desc_sorted, IH.
Qed.

Lemma order_by_desc_In (x : A) (l : list A) :
  In x (order_by_desc key l) <-> In x l.
Proof.
  split; apply Permutation_in;
    [|apply Permutation_sym]; apply order_by_desc_perm.
Qed.

(** A row whose key is above all the others comes first. *)
Lemma order_by_desc_snoc (l : list A) (x : A) :
  Forall (fun y => key y < key x) l ->
  order_by_desc key (l ++ [x]) = x :: order_by_desc key l.
Proof.
  induction 1 as [|y l Hy _ IH]; [reflexivity|].
  change (order_by_desc key ((y :: l) ++ [x]))
    with (insert_desc key y (order_by_desc key (l ++ [x]))).
  rewrite IH. cbn [insert_desc].
  destruct (key x <? key y) eqn:E; [|reflexivity].
  apply Z.ltb_lt in E. lia.
Qed.

Lemma sorted_app_inv (l1 l2 : list A) :
  StronglySorted (desc key) (l1 ++ l2) ->
  StronglySorted (desc key) l1 /\
  forall a b, In a l1 -> In b l2 -> key b <= key a.
Proof.
  induction l1 as [|x l1 IH]; simpl; intros H.
  - split; [constructor|]. intros a b [].
  - inversion H as [|? ? Hs Hx]; subst. destruct (IH Hs) as [H1 H2].
    apply Forall_app in Hx as [Hx1 Hx2]. split.
    + constructor; assumption.
    + intros a b [<-|Ha] Hb; [|auto].
      rewrite Forall_forall in Hx2. apply Hx2, Hb.
Qed.

End OrderBy.

Lemma NoDup_snoc {A : Type} (l : list A) (x : A) :
  NoDup l -> ~ In x l -> NoDup (l ++ [x]).
Proof.
  induction 1 as [|y l Hy Hl IH]; simpl; intros Hx.
  - constructor; [intros []|constructor].
  - constructor.
    + rewrite in_app_iff. simpl. intros [H|[H|[]]]; [auto|].
      apply Hx. left. symmetry. exact H.
    + apply IH. intros H. apply Hx. right. exact H.
Qed.

Lemma fresh_id {A : Type} (key : A -> Z) (l : list A) (n : Z) :
  Forall (fun x => 1 <= key x <= n) l -> ~ In (n + 1) (map key l).
Proof.
  intros H Hin. apply in_map_iff in Hin as (x & E & Hx).
  rewrite Forall_forall in H. specialize (H x Hx). lia.
Qed.

Lemma bounded_snoc {A : Type} (key : A -> Z) (l : list A) (x : A) (n : Z) :
  0 <= n -> key x = n + 1 ->
  Forall (fun y => 1 <= key y <= n) l ->
  Forall (fun y => 1 <= key y <= n + 1) (l ++ [x]).
Proof.
  intros Hn Hx H. apply Forall_app. split.
  - revert H. apply Forall_impl. intros y Hy. lia.
  - repeat constructor; lia.
Qed.

Lemma query_get_some (id : Z) (d : db) (m : Monitor) :
  query_get id d = Some m -> In m (tbl_monitors d) /\ m_id m = id.
Proof.
  unfold query_get. intros H. apply find_some in H as [H1 H2].
  apply Z.eqb_eq in H2. auto.
Qed.

Lemma query_get_none (id : Z) (d : db) :
  query_get id d = None <-> ~ In id (map m_id (tbl_monitors d)).
Proof.
  unfold query_get. split.
  - intros H Hin. apply in_map_iff in Hin as (m & E & Hm).
    pose proof (find_none _ _ H m Hm) as F. cbv beta in F.
    rewrite E, Z.eqb_refl in F. discriminate F.
  - intros H. destruct (find _ _) as [m|] eqn:E; [|reflexivity].
    apply find_some in E as [E1 E2]. apply Z.eqb_eq in E2.
    exfalso. apply H. rewrite <- E2. apply in_map, E1.
Qed.

Lemma db_ok_create_monitor (payload : MonitorCreate) (d : db) :
  db_ok d -> db_ok (fst (create_monitor payload d)).
Proof.
  intros [H1 H2 H3 H4 H5 [S1 S2]].
  constructor; cbn; try assumption.
  - rewrite map_app. apply NoDup_snoc; [exact H1|].
    cbn. apply (fresh_id m_id), H2.
  - apply bounded_snoc; [exact S1|reflexivity|exact H2].
  - revert H5. apply Forall_impl. intros c Hc.
    rewrite map_app. apply in_or_app. left. exact Hc.
  - lia.
Qed.

Lemma db_ok_create_check (payload : CheckCreate) (now : Z) (d : db) :
  db_ok d -> db_ok (fst (create_check payload now d)).
Proof.
  intros Hok. unfold create_check.
  destruct (query_get (cc_monitor_id payload) d) as [mon|] eqn:E;
    [|exact Hok].
  destruct Hok as [H1 H2 H3 H4 H5 [S1 S2]].
  constructor; cbn; try assumption.
  - rewrite map_app. apply NoDup_snoc; [exact H3|].
    cbn. apply (fresh_id c_id), H4.
  - apply bounded_snoc; [exact S2|reflexivity|exact H4].
  - apply Forall_app. split; [exact H5|]. repeat constructor. cbn.
    apply query_get_some in E as [E1 E2]. rewrite <- E2. apply in_map, E1.
  - lia.
Qed.

Lemma db_ok_serve (d : db) (c : call) : db_ok d -> db_ok (serve d c).
Proof.
  destruct c as [b|payload now]; cbn [serve];
    [apply db_ok_create_monitor|apply db_ok_create_check].
Qed.

Lemma db_ok_serve_all (cs : list call) (d : db) :
  db_ok d -> db_ok (serve_all cs d).
Proof.
  revert d. induction cs as [|c cs IH]; intros d Hok; [exact Hok|].
  cbn. apply IH, db_ok_serve, Hok.
Qed.

Lemma db_ok_empty : db_ok empty_db.
Proof. constructor; cbn; try constructor; lia. Qed.

(** X15. Whatever calls the API has served since the empty store, the ids
    of the monitors are distinct, the ids of the checks are distinct, and
    every stored check names a stored monitor. *)
Theorem store_invariant (cs : list call) : db_ok (serve_all cs empty_db).
Proof. apply db_ok_serve_all, db_ok_empty. Qed.

(** X16. [create_check] answers 404 and leaves the store as it is when no
    monitor has the id of the payload; otherwise, for a payload that the
    columns hold, it appends one row that carries the payload and the clock
    reading, under the next id of the sequence, and leaves the monitors as
    they are. *)
Theorem create_check_foreign_key (payload : CheckCreate) (now : Z) (d : db) :
  (~ In (cc_monitor_id payload) (map m_id (tbl_monitors d)) ->
   create_check payload now d = (d, HTTPException 404 "Monitor not found"))
  /\
  (In (cc_monitor_id payload) (map m_id (tbl_monitors d)) ->
   storable payload = true ->
   exists d' row,
     create_check payload now d = (d', Returned row) /\
     tbl_checks d' = (tbl_checks d ++ [row])%list /\
     tbl_monitors d' = tbl_monitors d /\
     row = {| c_id := seq_checks d + 1;
              c_monitor_id := cc_monitor_id payload;
              c_ts := now;
              c_status_code := cc_status_code payload;
              c_ok := cc_ok payload;
              c_error_reason := cc_error_reason payload |}).
Proof.
  unfold create_check. split.
  - intros H. apply query_get_none in H. rewrite H. reflexivity.
  - intros H _.
    destruct (query_get (cc_monitor_id payload) d) as [mon|] eqn:E.
    + do 2 eexists. repeat split.
    + apply query_get_none in E. contradiction.
Qed.

Lemma create_check_foreign_key_witness :
  create_check {| cc_monitor_id := 9; cc_status_code := Some 200;
                  cc_ok := true; cc_error_reason := None |} 1000 sample_db
  = (sample_db, HTTPException 404 "Monitor not found") /\
  exists d' row,
    create_check {| cc_monitor_id := 1; cc_status_code := Some 200;
                    cc_ok := true; cc_error_reason := None |} 1000 sample_db
    = (d', Returned row) /\
    tbl_checks d' = (tbl_checks sample_db ++ [row])%list /\
    tbl_monitors d' = tbl_monitors sample_db /\
    row = {| c_id := seq_checks sample_db + 1; c_monitor_id := 1;
             c_ts := 1000; c_status_code := Some 200; c_ok := true;
             c_error_reason := None |}.
Proof.
  split.
  - apply (create_check_foreign_key
             {| cc_monitor_id := 9; cc_status_code := Some 200;
                cc_ok := true; cc_error_reason := None |} 1000 sample_db).
    cbn. intros [H|[H|[]]]; discriminate H.
  - apply (create_check_foreign_key
             {| cc_monitor_id := 1; cc_status_code := Some 200;
                cc_ok := true; cc_error_reason := None |} 1000 sample_db).
    + left. reflexivity.
    + reflexivity.
Defined.

Lemma find_snoc_fresh {A : Type} (f : A -> bool) (l : list A) (x : A) :
  Forall (fun y => f y = false) l -> f x = true -> find f (l ++ [x]) = Some x.
Proof.
  intros H Hx. induction H as [|y l Hy _ IH]; simpl.
  - rewrite Hx. reflexivity.
  - rewrite Hy. exact IH.
Qed.

(** X17. A monitor created in a store that the API has built comes first
    in [list_monitors], is found again under its id, has the defaults of
    [MonitorCreate] for the fields the body left out, and is served by
    [list_public_monitors] exactly when the body did not disable it. *)
Theorem create_monitor_listed (b : MonitorBody) (d : db) :
  db_ok d ->
  let d' := fst (create_monitor (monitor_create_of b) d) in
  let m := snd (create_monitor (monitor_create_of b) d) in
  list_monitors d' = m :: list_monitors d /\
  query_get (m_id m) d' = Some m /\
  m = {| m_id := seq_monitors d + 1;
         m_name := b_name b;
         m_url := b_url b;
         m_method := get (b_method b) "GET";
         m_interval_sec := get (b_interval_sec b) 60;
         m_timeout_ms := get (b_timeout_ms b) 5000;
         m_expected_statuses := get (b_expected_statuses b) "200-399";
         m_is_enabled := get (b_is_enabled b) true |} /\
  (In m (list_public_monitors d') <-> b_is_enabled b <> Some false).
Proof.
  intros [H1 H2 H3 H4 H5 [S1 S2]]. cbn zeta.
  unfold create_monitor, list_monitors, list_public_monitors, query_get.
  cbn [fst snd tbl_monitors m_id m_is_enabled monitor_create_of
       mc_name mc_url mc_method mc_interval_sec mc_timeout_ms
       mc_expected_statuses mc_is_enabled].
  split; [|split; [|split; [reflexivity|]]].
  - apply order_by_desc_snoc. revert H2. apply Forall_impl.
    intros y Hy. cbn. lia.
  - apply find_snoc_fresh.
    + revert H2. apply Forall_impl. intros y Hy. apply Z.eqb_neq. lia.
    + apply Z.eqb_refl.
  - rewrite filter_In, in_app_iff. cbn.
    destruct (b_is_enabled b) as [[]|]; cbn; split; intros H;
      try (split; [right; left; reflexivity|reflexivity]);
      try discriminate; try (exfalso; apply H; reflexivity);
      destruct H as [_ H]; discriminate H.
Qed.

Lemma create_monitor_listed_witness :
  let b := {| b_name := "home"; b_url := "http://example.test/";
              b_method := None; b_interval_sec := None; b_timeout_ms := None;
              b_expected_statuses := None; b_is_enabled := None |} in
  let d' := fst (create_monitor (monitor_create_of b) empty_db) in
  let m := snd (create_monitor (monitor_create_of b) empty_db) in
  list_monitors d' = m :: list_monitors empty_db /\
  query_get (m_id m) d' = Some m /\
  m = {| m_id := 1; m_name := "home"; m_url := "http://example.test/";
         m_method := "GET"; m_interval_sec := 60; m_timeout_ms := 5000;
         m_expected_statuses := "200-399"; m_is_enabled := true |} /\
  (In m (list_public_monitors d') <-> b_is_enabled b <> Some false).
Proof.
  intros b.
  apply (create_monitor_listed b empty_db).
  constructor; cbn; try constructor; lia.
Defined.

Lemma sorted_strict {A : Type} (key : A -> Z) (l : list A) :
  StronglySorted (desc key) l -> NoDup (map key l) ->
  StronglySorted (fun a b => key b < key a) l.
Proof.
  induction 1 as [|x l Hl IH Hx]; simpl; intros Hnd; [constructor|].
  inversion Hnd as [|? ? Hnin Hnd']; subst. constructor; [auto|].
  rewrite Forall_forall in *. intros y Hy. specialize (Hx y Hy).
  unfold desc in Hx. assert (key y <> key x); [|lia].
  intros E. apply Hnin. rewrite <- E. apply in_map, Hy.
Qed.

(** X18. In a store that the API has built, [list_monitors] returns every
    stored monitor once, by strictly decreasing id. *)
Theorem list_monitors_sorted (d : db) :
  db_ok d ->
  Permutation (list_monitors d) (tbl_monitors d) /\
  StronglySorted (fun a b => m_id b < m_id a) (list_monitors d).
Proof.
  intros Hok. unfold list_monitors. split; [apply order_by_desc_perm|].
  apply sorted_strict; [apply order_by_desc_sorted|].
  apply (Permutation_NoDup (l := map m_id (tbl_monitors d)));
    [|apply (ok_monitor_ids d Hok)].
  apply Permutation_map, Permutation_sym, order_by_desc_perm.
Qed.

Lemma list_monitors_sorted_witness :
  Permutation (list_monitors sample_db) (tbl_monitors sample_db) /\
  StronglySorted (fun a b => m_id b < m_id a) (list_monitors sample_db).
Proof.
  apply (list_monitors_sorted sample_db).
  apply db_ok_serve_all, db_ok_empty.
Defined.

Example list_monitors_sample : map m_id (list_monitors sample_db) = [2; 1].
Proof. reflexivity. Qed.

(** X19. [list_checks] answers 422 unless the limit, 50 when absent, is
    between 1 and 500.  Otherwise it returns at most that many rows, all of
    them stored checks of the monitor asked for, latest first, none older
    than a check of that monitor it leaves out; and all of them when they
    are no more than the limit. *)
Theorem list_checks_bounded (monitor_id : Z) (limit : option Z) (d : db) :
  (1 <= get limit 50 <= 500 ->
   exists rows,
     list_checks monitor_id limit d = Returned rows /\
     Z.of_nat (length rows) <= get limit 50 /\
     (forall c, In c rows -> In c (tbl_checks d) /\ c_monitor_id c = monitor_id) /\
     StronglySorted (desc c_ts) rows /\
     (forall c c', In c rows -> In c' (tbl_checks d) ->
        c_monitor_id c' = monitor_id -> ~ In c' rows -> c_ts c' <= c_ts c) /\
     (Z.of_nat (length (filter (fun c => c_monitor_id c =? monitor_id)
                          (tbl_checks d))) <= get limit 50 ->
      Permutation rows
        (filter (fun c => c_monitor_id c =? monitor_id) (tbl_checks d))))
  /\
  (~ 1 <= get limit 50 <= 500 ->
   list_checks monitor_id limit d = Unprocessable).
Proof.
  unfold list_checks. cbv zeta.
  set (n := get limit 50).
  set (mine := filter (fun c => c_monitor_id c =? monitor_id) (tbl_checks d)).
  set (all := order_by_desc c_ts mine).
  assert (Hin : forall c, In c all <-> In c (tbl_checks d) /\ c_monitor_id c = monitor_id).
  { intros c. unfold all. rewrite order_by_desc_In. unfold mine.
    rewrite filter_In, Z.eqb_eq. reflexivity. }
  assert (Hsplit : (firstn (Z.to_nat n) all ++ skipn (Z.to_nat n) all)%list = all)
    by apply firstn_skipn.
  assert (Hsorted : StronglySorted (desc c_ts)
                      (firstn (Z.to_nat n) all ++ skipn (Z.to_nat n) all))
    by (rewrite Hsplit; apply order_by_desc_sorted).
  destruct (sorted_app_inv c_ts _ _ Hsorted) as [Hs1 Hs2].
  split; intros Hn.
  - assert (E : (1 <=? n) && (n <=? 500) = true)
      by (apply andb_true_iff; split; apply Z.leb_le; lia).
    rewrite E. eexists. split; [reflexivity|].
    split; [|split; [|split; [exact Hs1|split]]].
    + pose proof (firstn_le_length (Z.to_nat n) all). lia.
    + intros c Hc. apply Hin. rewrite <- Hsplit. apply in_or_app. auto.
    + intros c c' Hc Hc' Hm Hout. apply Hs2; [exact Hc|].
      assert (H : In c' all) by (apply Hin; auto).
      rewrite <- Hsplit in H. apply in_app_or in H as [H|H];
        [contradiction|exact H].
    + intros Hlen. rewrite firstn_all2; [apply order_by_desc_perm|].
      unfold all. rewrite (Permutation_length (order_by_desc_perm c_ts mine)).
      lia.
  - assert (E : (1 <=? n) && (n <=? 500) = false).
    { apply andb_false_iff.
      destruct (Z.leb_spec 1 n); [|auto].
      destruct (Z.leb_spec n 500); [lia|auto]. }
    rewrite E. reflexivity.
Qed.

Lemma list_checks_bounded_witness :
  exists rows,
    list_checks 1 (Some 2) sample_db = Returned rows /\
    Z.of_nat (length rows) <= 2 /\
    (forall c, In c rows -> In c (tbl_checks sample_db) /\ c_monitor_id c = 1) /\
    StronglySorted (desc c_ts) rows /\
    (forall c c', In c rows -> In c' (tbl_checks sample_db) ->
       c_monitor_id c' = 1 -> ~ In c' rows -> c_ts c' <= c_ts c) /\
    (Z.of_nat (length (filter (fun c => c_monitor_id c =? 1)
                         (tbl_checks sample_db))) <= 2 ->
     Permutation rows
       (filter (fun c => c_monitor_id c =? 1) (tbl_checks sample_db))).
Proof.
  apply (list_checks_bounded 1 (Some 2) sample_db). cbn. lia.
Defined.

Example list_checks_sample :
  match list_checks 1 (Some 2) sample_db with
  | Returned rows => map c_ts rows = [300; 200]
  | _ => False
  end /\
  list_checks 1 (Some 0) sample_db = Unprocessable /\
  list_checks 1 (Some 501) sample_db = Unprocessable /\
  list_checks 5 None sample_db = Returned [].
Proof. repeat split. Qed.

(** ** The worker against the store *)

Lemma enabled_monitor_json (m : Monitor) :
  enabled (monitor_json m) = m_is_enabled m.
Proof. reflexivity. Qed.

Lemma filter_enabled_public (d : db) :
  filter enabled (map monitor_json (list_public_monitors d)) =
  map monitor_json (list_public_monitors d).
Proof.
  unfold list_public_monitors.
  induction (tbl_monitors d) as [|m ms IH]; [reflexivity|].
  simpl. destruct (m_is_enabled m) eqn:E; [|exact IH].
  simpl. rewrite enabled_monitor_json, E, IH. reflexivity.
Qed.

(** X20. When the worker fetches what [list_public_monitors] serves, it
    launches one probe for each stored monitor that is enabled, and none
    for a stored monitor that is disabled: its own filter removes nothing
    from the list. *)
Theorem worker_probes_enabled_rows (d : db) (l : loop) :
  lp_runner l = Running runner_body -> lp_tasks l = [] ->
  exists l',
    run [MGet (Ok (map monitor_json (list_public_monitors d))); MRunner] l
    = Some l' /\
    lp_tasks l' =
    map (fun m => check_once (monitor_json m)) (list_public_monitors d) /\
    (forall m, In m (list_public_monitors d) <->
               In m (tbl_monitors d) /\ m_is_enabled m = true).
Proof.
  intros Hr Ht.
  destruct (cycle_spawn l (map monitor_json (list_public_monitors d)) Hr Ht)
    as (l' & Hrun & Hts).
  exists l'. split; [exact Hrun|]. split.
  - rewrite Hts, filter_enabled_public. apply map_map.
  - intros m. unfold list_public_monitors. apply filter_In.
Qed.

Lemma worker_probes_enabled_rows_witness :
  exists l',
    run [MGet (Ok (map monitor_json (list_public_monitors sample_db))); MRunner]
      start = Some l' /\
    lp_tasks l' =
    map (fun m => check_once (monitor_json m)) (list_public_monitors sample_db) /\
    (forall m, In m (list_public_monitors sample_db) <->
               In m (tbl_monitors sample_db) /\ m_is_enabled m = true).
Proof. apply (worker_probes_enabled_rows sample_db start); reflexivity. Defined.

Example public_monitors_sample :
  map m_id (tbl_monitors sample_db) = [1; 2] /\
  map m_id (list_public_monitors sample_db) = [1].
Proof. repeat split. Qed.

Lemma serve_keeps_monitors (d : db) (c : call) (m : Monitor) :
  In m (tbl_monitors d) -> In m (tbl_monitors (serve d c)).
Proof.
  intros H. destruct c as [b|payload now]; cbn.
  - apply in_or_app. left. exact H.
  - unfold create_check. destruct (query_get _ d); exact H.
Qed.

Lemma serve_all_keeps_monitors (cs : list call) (d : db) (m : Monitor) :
  In m (tbl_monitors d) -> In m (tbl_monitors (serve_all cs d)).
Proof.
  revert d. induction cs as [|c cs IH]; intros d H; [exact H|].
  cbn. apply IH, serve_keeps_monitors, H.
Qed.

(** X21. The check that a probe posts for a monitor served by
    [list_public_monitors] is never answered 404, whatever calls the API
    has served in between: no call removes a monitor.  The row stored
    carries the monitor's id and the probe's status code, verdict and error
    text. *)
Theorem worker_check_accepted (d : db) (cs : list call) (m : Monitor)
  (r : result Z) (c : check) (now : Z) :
  In m (list_public_monitors d) -> check_of (monitor_json m) r = Some c ->
  exists d' row,
    create_check (check_create_of c) now (serve_all cs d) = (d', Returned row) /\
    tbl_checks d' = (tbl_checks (serve_all cs d) ++ [row])%list /\
    c_monitor_id row = m_id m /\ c_ts row = now /\
    c_status_code row = status_code c /\ c_ok row = ok c /\
    c_error_reason row = error_reason c.
Proof.
  intros Hm Hc. apply filter_In in Hm as [Hm _].
  pose proof (check_of_monitor_id _ _ _ Hc) as Hid. cbn in Hid.
  pose proof (serve_all_keeps_monitors cs d m Hm) as Hin.
  unfold create_check. cbn [check_create_of cc_monitor_id].
  destruct (query_get (monitor_id c) (serve_all cs d)) as [mon|] eqn:E.
  - do 2 eexists. split; [reflexivity|].
    cbn [tbl_checks c_monitor_id c_ts c_status_code c_ok c_error_reason
         cc_status_code cc_ok cc_error_reason].
    repeat split; try reflexivity. exact Hid.
  - apply query_get_none in E. exfalso. apply E. rewrite Hid.
    apply in_map, Hin.
Qed.

Lemma worker_check_accepted_witness :
  exists d' row,
    create_check
      (check_create_of {| monitor_id := 1; status_code := Some 204;
                          ok := true; error_reason := None |})
      400 (serve_all [] sample_db) = (d', Returned row) /\
    tbl_checks d' = (tbl_checks (serve_all [] sample_db) ++ [row])%list /\
    c_monitor_id row = 1 /\ c_ts row = 400 /\
    c_status_code row = Some 204 /\ c_ok row = true /\
    c_error_reason row = None.
Proof.
  apply (worker_check_accepted sample_db []
           {| m_id := 1; m_name := "home"; m_url := "http://example.test/";
              m_method := "GET"; m_interval_sec := 60; m_timeout_ms := 5000;
              m_expected_statuses := "200-399"; m_is_enabled := true |}
           (Ok 204)
           {| monitor_id := 1; status_code := Some 204;
              ok := true; error_reason := None |} 400);
    [left; reflexivity | reflexivity].
Defined.

(** ** Start-up *)

Section Retry.

Context {A : Type} (tag : string) (attempt : nat -> result A).

Lemma retry_none (i n : nat) :
  snd (retry tag attempt i n) = None <->
  forall j, (j < n)%nat -> exists e, attempt (i + j)%nat = Raise e.
Proof.
  revert i. induction n as [|n IH]; intros i; cbn [retry].
  - split; [intros _ j Hj; lia|reflexivity].
  - destruct (attempt i) as [a|e] eqn:E.
    + split; [discriminate|]. intros H. destruct (H 0%nat) as [e He]; [lia|].
      rewrite Nat.add_0_r, E in He. discriminate He.
    + specialize (IH (S i)). destruct (retry tag attempt (S i) n) as [evs r].
      cbn [snd] in *. rewrite IH. split; intros H j Hj.
      * destruct j as [|j]; [rewrite Nat.add_0_r; eauto|].
        rewrite Nat.add_succ_r. apply (H j). lia.
      * replace (S i + j)%nat with (i + S j)%nat by lia. apply H. lia.
Qed.

Lemma retry_some (i n : nat) (a : A) :
  snd (retry tag attempt i n) = Some a ->
  exists k, (k < n)%nat /\ attempt (i + k)%nat = Ok a /\
    (forall j, (j < k)%nat -> exists e, attempt (i + j)%nat = Raise e) /\
    sleeps (fst (retry tag attempt i n)) = Z.of_nat k.
Proof.
  revert i. induction n as [|n IH]; intros i; cbn [retry]; [discriminate|].
  destruct (attempt i) as [a'|e] eqn:E.
  - intros [= ->]. exists 0%nat. rewrite Nat.add_0_r.
    repeat split; [lia|exact E|intros j Hj; lia].
  - specialize (IH (S i)). destruct (retry tag attempt (S i) n) as [evs r].
    cbn [fst snd] in *. intros H. destruct (IH H) as (k & H1 & H2 & H3 & H4).
    exists (S k). rewrite Nat.add_succ_r. repeat split; [lia|exact H2| |].
    + intros [|j] Hj; [rewrite Nat.add_0_r; eauto|].
      rewrite Nat.add_succ_r. apply (H3 j). lia.
    + cbn [sleeps fold_right]. fold (sleeps evs). lia.
Qed.

Lemma retry_sleeps_none (i n : nat) :
  snd (retry tag attempt i n) = None ->
  sleeps (fst (retry tag attempt i n)) = Z.of_nat n.
Proof.
  revert i. induction n as [|n IH]; intros i; cbn [retry]; [reflexivity|].
  destruct (attempt i) as [a|e]; [discriminate|].
  specialize (IH (S i)). destruct (retry tag attempt (S i) n) as [evs r].
  cbn [fst snd] in *. intros H. cbn [sleeps fold_right]. fold (sleeps evs).
  rewrite (IH H). lia.
Qed.

End Retry.

Lemma sleeps_app (evs evs' : list boot_event) :
  sleeps (evs ++ evs') = sleeps evs + sleeps evs'.
Proof.
  induction evs as [|ev evs IH]; [reflexivity|].
  cbn [app sleeps fold_right]. fold (sleeps (evs ++ evs')) (sleeps evs).
  destruct ev; lia.
Qed.

(** X22. The import of the API tries each of its two start-up steps at
    most 20 times, one second apart.  It ends with [engine] unbound exactly
    when all 20 attempts to create the engine raise, after 20 seconds of
    sleep; it goes on to serve without its tables exactly when the engine
    was created and all 20 attempts to create the tables raise; and it
    never sleeps more than 39 seconds. *)
Theorem startup_outcomes (create_engine create_all : nat -> result unit) :
  (snd (startup create_engine create_all) = NameError <->
   forall j, (j < 20)%nat -> exists e, create_engine j = Raise e) /\
  (snd (startup create_engine create_all) = Serving false <->
   (exists j, (j < 20)%nat /\ create_engine j = Ok tt) /\
   forall j, (j < 20)%nat -> exists e, create_all j = Raise e) /\
  (snd (startup create_engine create_all) = NameError ->
   sleeps (fst (startup create_engine create_all)) = 20) /\
  0 <= sleeps (fst (startup create_engine create_all)) <= 39.
Proof.
  unfold startup.
  pose proof (retry_none "DB connect retry..." create_engine 0 20) as N1.
  pose proof (retry_some "DB connect retry..." create_engine 0 20) as S1.
  pose proof (retry_sleeps_none "DB connect retry..." create_engine 0 20) as Z1.
  pose proof (retry_none "DB migrate retry..." create_all 0 20) as N2.
  pose proof (retry_some "DB migrate retry..." create_all 0 20) as S2.
  pose proof (retry_sleeps_none "DB migrate retry..." create_all 0 20) as Z2.
  destruct (retry "DB connect retry..." create_engine 0 20) as [evs [[]|]];
    destruct (retry "DB migrate retry..." create_all 0 20) as [evs' r'];
    cbn [fst snd] in *.
  - destruct (S1 tt eq_refl) as (k & K1 & K2 & _ & K4).
    assert (Hsome : exists j, (j < 20)%nat /\ create_engine j = Ok tt)
      by (exists k; auto).
    assert (Hev' : 0 <= sleeps evs' <= 20).
    { destruct r' as [[]|].
      - destruct (S2 tt eq_refl) as (k' & ? & _ & _ & E). lia.
      - rewrite (Z2 eq_refl). lia. }
    assert (Hev'' : r' <> None -> sleeps evs' <= 19).
    { destruct r' as [[]|]; [|congruence]. intros _.
      destruct (S2 tt eq_refl) as (k' & ? & _ & _ & E). lia. }
    split; [|split; [|split]].
    + split; [discriminate|]. intros H. apply N1 in H. discriminate H.
    + split.
      * intros H. split; [exact Hsome|]. apply N2.
        destruct r'; [discriminate H|reflexivity].
      * intros [_ H]. apply N2 in H. rewrite H. reflexivity.
    + discriminate.
    + rewrite sleeps_app. destruct r' as [[]|].
      * specialize (Hev'' ltac:(discriminate)). lia.
      * lia.
  - split; [|split; [|split]].
    + split; [intros _; apply N1; reflexivity|reflexivity].
    + split; [discriminate|]. intros [(j & Hj & E) _].
      destruct (proj1 N1 eq_refl j Hj) as [e He]. cbn in He.
      rewrite E in He. discriminate He.
    + intros _. apply (Z1 eq_refl).
    + rewrite (Z1 eq_refl). lia.
Qed.

Example startup_first_try :
  startup (fun _ => Ok tt) (fun _ => Ok tt) = ([], Serving true).
Proof. reflexivity. Qed.

Example startup_late_database :
  let late := fun i => if (i <? 3)%nat then Raise (HTTPError "refused") else Ok tt in
  snd (startup late (fun _ => Ok tt)) = Serving true /\
  sleeps (fst (startup late (fun _ => Ok tt))) = 3 /\
  sleeps (fst (startup late late)) = 6.
Proof. repeat split. Qed.

Lemma startup_outcomes_witness :
  snd (startup (fun _ => Raise (HTTPError "refused")) (fun _ => Ok tt))
  = NameError /\
  sleeps (fst (startup (fun _ => Raise (HTTPError "refused")) (fun _ => Ok tt)))
  = 20.
Proof.
  destruct (startup_outcomes (fun _ => Raise (HTTPError "refused"))
              (fun _ => Ok tt)) as (H1 & _ & H3 & _).
  assert (H : snd (startup (fun _ => Raise (HTTPError "refused"))
                     (fun _ => Ok tt)) = NameError).
  { apply H1. intros j _. eexists. reflexivity. }
  split; [exact H|apply H3, H].
Defined.

(** * The requests and reports of one iteration *)



















Example quiet_loop_counts :
  count is_request_event (cycle_events quiet_moves start) = 1%nat /\
  count is_post_event (cycle_events quiet_moves start) = 1%nat.
Proof. split; reflexivity. Qed.

